(** * pipefunc.mcp: job registry, cancellation and run inspection

  A shallow embedding of the job-management and run-inspection functions
  of [src/pipefunc/mcp.py]:

  - [_execute_pipeline_async], [_check_job_status], [_cancel_job] and
    [_list_jobs], which work on the process-wide [job_registry];
  - [_progress_info_from_disk], which inspects the stores of one run;
  - [_list_historical_runs], which scans a folder of runs.

  Python dictionaries are insertion-ordered; they are association lists
  here ([dict_set] replaces in place or appends).  A function that may let
  an exception escape returns an [outcome].  The tool functions end in
  [str(...)] of a dictionary; the embedding stops at the dictionary. *)

From Stdlib Require Import List String Ascii ZArith QArith Lia.
From Stdlib Require Import Sorting.Sorted Sorting.Permutation.
Import ListNotations.

Local Close Scope Q_scope.
Local Open Scope string_scope.
Local Open Scope list_scope.

(** ** Exceptions and outcomes *)

Inductive exn : Type :=
| CancelledError
| InvalidStateError
| AssertionError
| ZeroDivisionError
| KeyError (key : string)
| RuntimeError (msg : string)
| FileNotFoundError
| JSONDecodeError
| UnboundLocalError
| AttributeError
| TaskError (msg : string).

Inductive outcome (A : Type) : Type :=
| Returned (a : A)
| Raised (e : exn).

Arguments Returned {A} a.
Arguments Raised {A} e.

Definition bind {A B : Type} (m : outcome A) (k : A -> outcome B) : outcome B :=
  match m with
  | Returned a => k a
  | Raised e => Raised e
  end.

Notation "x <- m ;; k" := (bind m (fun x => k))
  (at level 61, m at next level, right associativity).

(** ** Insertion-ordered dictionaries with string keys *)

Section Dict.
Context {V : Type}.

Definition dict : Type := list (string * V).

Fixpoint dict_get (d : dict) (k : string) : option V :=
  match d with
  | [] => None
  | (k', v) :: d' => if String.eqb k' k then Some v else dict_get d' k
  end.

(** [d[k] = v]: an existing key keeps its position. *)
Fixpoint dict_set (d : dict) (k : string) (v : V) : dict :=
  match d with
  | [] => [(k, v)]
  | (k', v') :: d' =>
      if String.eqb k' k then (k', v) :: d' else (k', v') :: dict_set d' k v
  end.

Definition dict_keys (d : dict) : list string := map fst d.

End Dict.

Arguments dict V : clear implicits.

(** ** The background task

  [job.runner.task] is an [asyncio.Task].  Its coroutine is not part of
  the module; what the module sees is the task's interface.  [cancel()]
  on a pending task requests cancellation: the coroutine is resumed with
  a [CancelledError]. *)

Module Task.

Inductive output : Type :=
| Plain (value : string)
| NdArray (shape : list Z) (items : string).

Definition ResultDict : Type := dict output.

(** An exception object: its [str()] and its truth value. *)
Record Exception : Type := {
  exc_str : string;
  exc_bool : bool
}.

(** A task is pending, or ended with a result, with an exception or
    cancelled.  [Failed] is for an exception whose truth value is true, as
    it is for exceptions that define neither [__bool__] nor [__len__];
    [FailedFalsy] is for one whose truth value is false. *)
Inductive t : Type :=
| Pending (must_cancel : bool)
| Finished (result : ResultDict)
| Failed (exc : string)
| FailedFalsy (exc : string)
| Cancelled.

Definition done (tk : t) : bool :=
  match tk with
  | Pending _ => false
  | _ => true
  end.

(** [task.cancel()]: the task afterwards and the returned flag. *)
Definition cancel (tk : t) : t * bool :=
  match tk with
  | Pending _ => (Pending true, true)
  | _ => (tk, false)
  end.

(** [task.exception()] *)
Definition exception (tk : t) : outcome (option Exception) :=
  match tk with
  | Pending _ => Raised InvalidStateError
  | Finished _ => Returned None
  | Failed e => Returned (Some {| exc_str := e; exc_bool := true |})
  | FailedFalsy e => Returned (Some {| exc_str := e; exc_bool := false |})
  | Cancelled => Raised CancelledError
  end.

(** [task.result()]: the exception of the task is raised again. *)
Definition result (tk : t) : outcome ResultDict :=
  match tk with
  | Pending _ => Raised InvalidStateError
  | Finished r => Returned r
  | Failed e => Raised (TaskError e)
  | FailedFalsy e => Raised (TaskError e)
  | Cancelled => Raised CancelledError
  end.

(** Modelled from the spec: what the event loop may do to a task between
    two tool calls.  The coroutine behind the task is pipefunc's
    [map_async], which is not part of [src/]; the spec has it stop at its
    next checkpoint once cancellation is requested, so a task that was
    asked to cancel ends cancelled and in no other way.  A task that was
    not asked ends with a result or with an exception, or cancelled as
    well: an [asyncio.Task] ends cancelled whenever [CancelledError]
    leaves its coroutine. *)
Inductive advance : t -> t -> Prop :=
| advance_result r : advance (Pending false) (Finished r)
| advance_error e : advance (Pending false) (Failed e)
| advance_error_falsy e : advance (Pending false) (FailedFalsy e)
| advance_cancelled b : advance (Pending b) Cancelled.

End Task.

(** ** The job registry *)

Module Jobs.

(** One entry of [runner.progress.progress_dict], as a snapshot of the
    values that [_check_job_status] reads from it. *)
Record ProgressSnapshot : Type := {
  ps_progress : Q;
  ps_n_completed : Z;
  ps_n_total : Z;
  ps_n_failed : Z;
  ps_elapsed_time : option Q;
  ps_remaining_time : option Q
}.

Record AsyncMap : Type := {
  task : Task.t;
  progress : option (dict ProgressSnapshot)
}.

Record JobInfo : Type := {
  runner : AsyncMap;
  started_at : string;
  run_folder : string;
  status : string;
  pipeline_name : string
}.

Definition Registry : Type := dict JobInfo.

Definition job_registry_initial : Registry := [].

Definition _DEFAULT_PIPELINE_NAME : string := "Unnamed Pipeline".

(** [x or default] on an optional string: [None] and [""] are falsy. *)
Definition or_default (x : option string) (default : string) : string :=
  match x with
  | Some s => if String.eqb s "" then default else s
  | None => default
  end.

Definition set_task (job : JobInfo) (tk : Task.t) : JobInfo :=
  {| runner := {| task := tk; progress := progress (runner job) |};
     started_at := started_at job;
     run_folder := run_folder job;
     status := status job;
     pipeline_name := pipeline_name job |}.

Definition set_progress (job : JobInfo) (p : option (dict ProgressSnapshot)) : JobInfo :=
  {| runner := {| task := task (runner job); progress := p |};
     started_at := started_at job;
     run_folder := run_folder job;
     status := status job;
     pipeline_name := pipeline_name job |}.

Definition set_status (job : JobInfo) (s : string) : JobInfo :=
  {| runner := runner job;
     started_at := started_at job;
     run_folder := run_folder job;
     status := s;
     pipeline_name := pipeline_name job |}.

(** *** Responses (the dictionaries handed to [str]) *)

Record ProgressInfo : Type := {
  pi_progress : Q;
  pi_n_completed : Z;
  pi_n_total : Z;
  pi_n_failed : Z;
  pi_elapsed_time : option Q;
  pi_remaining_time : option Q
}.

Record OutputInfo : Type := {
  oi_output : string;
  oi_shape : option (list Z)
}.

Record StatusInfo : Type := {
  si_job_id : string;
  si_pipeline_name : string;
  si_status : string;
  si_progress : dict ProgressInfo;
  si_run_folder : string;
  si_started_at : string;
  si_error : option string;
  si_results : option (dict OutputInfo)
}.

Record JobSummary : Type := {
  js_job_id : string;
  js_pipeline_name : string;
  js_status : string;
  js_run_folder : string;
  js_started_at : string;
  js_has_error : bool
}.

Inductive Response : Type :=
| Launched (job_id run_folder : string)
| ErrorOnly (error : string)
| ErrorForJob (error job_id : string)
| CancelledJob (status job_id : string)
| JobStatus (info : StatusInfo)
| JobList (jobs : list JobSummary) (total_count : nat).

(** *** execute_pipeline_async

    [job_id] is the fresh [uuid4], [async_map] what [pipeline.map_async]
    returned and [now] the launch time in ISO format. *)
Definition _execute_pipeline_async (reg : Registry) (name : option string)
    (job_id : string) (run_folder : option string) (async_map : AsyncMap)
    (now : string) : Registry * Response :=
  let actual_run_folder :=
    or_default run_folder (String.append "runs/job_" job_id) in
  let job := {| runner := async_map;
                started_at := now;
                run_folder := actual_run_folder;
                status := "running";
                pipeline_name := or_default name _DEFAULT_PIPELINE_NAME |} in
  (dict_set reg job_id job, Launched job_id actual_run_folder).

(** *** check_job_status *)

Definition progress_entry (s : ProgressSnapshot) : ProgressInfo :=
  {| pi_progress := ps_progress s;
     pi_n_completed := ps_n_completed s;
     pi_n_total := ps_n_total s;
     pi_n_failed := ps_n_failed s;
     pi_elapsed_time := ps_elapsed_time s;
     pi_remaining_time := ps_remaining_time s |}.

Definition render_output (o : Task.output) : OutputInfo :=
  match o with
  | Task.NdArray shape items => {| oi_output := items; oi_shape := Some shape |}
  | Task.Plain v => {| oi_output := v; oi_shape := None |}
  end.

Definition render_results (r : Task.ResultDict) : dict OutputInfo :=
  fold_left (fun out kv => dict_set out (fst kv) (render_output (snd kv))) r [].

(** The truth value of what [task.exception()] returned. *)
Definition truthy (e : option Task.Exception) : bool :=
  match e with Some x => Task.exc_bool x | None => false end.

(** [e is not None] *)
Definition is_not_None (e : option Task.Exception) : bool :=
  match e with Some _ => true | None => false end.

(** [str(e)] *)
Definition str (e : option Task.Exception) : string :=
  match e with Some x => Task.exc_str x | None => "None" end.

Definition _check_job_status (reg : Registry) (job_id : string) : outcome Response :=
  match dict_get reg job_id with
  | None => Returned (ErrorOnly "Job not found")
  | Some job =>
      let tk := task (runner job) in
      let is_done := Task.done tk in
      match progress (runner job) with
      | None => Raised AssertionError
      | Some progress_dict =>
          let progress_info :=
            fold_left (fun out kv => dict_set out (fst kv) (progress_entry (snd kv)))
                      progress_dict [] in
          error <- (if is_done then
                      e <- Task.exception tk ;;
                      if truthy e then
                        e' <- Task.exception tk ;; Returned (Some (str e'))
                      else Returned None
                    else Returned None) ;;
          no_exception <- (if is_done then
                             e <- Task.exception tk ;; Returned (negb (truthy e))
                           else Returned false) ;;
          results <- (if no_exception then
                        r <- Task.result tk ;; Returned (Some (render_results r))
                      else Returned None) ;;
          Returned (JobStatus
            {| si_job_id := job_id;
               si_pipeline_name := pipeline_name job;
               si_status := if is_done then "completed" else "running";
               si_progress := progress_info;
               si_run_folder := run_folder job;
               si_started_at := started_at job;
               si_error := error;
               si_results := results |})
      end
  end.

(** *** cancel_job *)

Definition _cancel_job (reg : Registry) (job_id : string) : Registry * Response :=
  match dict_get reg job_id with
  | None => (reg, ErrorOnly "Job not found")
  | Some job =>
      let tk := task (runner job) in
      if negb (Task.done tk) then
        let job' := set_status (set_task job (fst (Task.cancel tk))) "cancelled" in
        (dict_set reg job_id job', CancelledJob "cancelled" job_id)
      else
        (reg, ErrorForJob "Job not found or already completed" job_id)
  end.

(** *** list_jobs *)

Definition job_summary (job_id : string) (job : JobInfo) : outcome JobSummary :=
  let tk := task (runner job) in
  let is_done := Task.done tk in
  has_error <- (if is_done then
                  e <- Task.exception tk ;; Returned (is_not_None e)
                else Returned false) ;;
  Returned {| js_job_id := job_id;
              js_pipeline_name := pipeline_name job;
              js_status := status job;
              js_run_folder := run_folder job;
              js_started_at := started_at job;
              js_has_error := has_error |}.

Fixpoint jobs_info (items : list (string * JobInfo)) : outcome (list JobSummary) :=
  match items with
  | [] => Returned []
  | (job_id, job) :: rest =>
      info <- job_summary job_id job ;;
      infos <- jobs_info rest ;;
      Returned (info :: infos)
  end.

Definition _list_jobs (reg : Registry) : outcome Response :=
  match reg with
  | [] => Returned (JobList [] 0)
  | _ =>
      infos <- jobs_info reg ;;
      Returned (JobList infos (List.length infos))
  end.

(** The status that [_list_jobs] shows for one job, when it returns. *)
Definition listed_status (reg : Registry) (job_id : string) : option string :=
  match _list_jobs reg with
  | Returned (JobList infos _) =>
      option_map js_status
        (find (fun j => String.eqb (js_job_id j) job_id) infos)
  | _ => None
  end.

(** The status that [_check_job_status] shows for one job. *)
Definition checked_status (reg : Registry) (job_id : string) : option string :=
  match _check_job_status reg job_id with
  | Returned (JobStatus info) => Some (si_status info)
  | _ => None
  end.

(** *** The life of the registry

    Between two tool calls a job is launched (under an identifier that no
    job has yet, as [uuid4] gives), a job is cancelled, the event loop
    advances the task of a job, or a progress tracker changes.
    [_check_job_status] and [_list_jobs] only read. *)

Inductive step : Registry -> Registry -> Prop :=
| step_launch reg name job_id folder pd now :
    dict_get reg job_id = None ->
    step reg (fst (_execute_pipeline_async reg name job_id folder
                     {| task := Task.Pending false; progress := pd |} now))
| step_cancel reg job_id :
    step reg (fst (_cancel_job reg job_id))
| step_task reg job_id job tk' :
    dict_get reg job_id = Some job ->
    Task.advance (task (runner job)) tk' ->
    step reg (dict_set reg job_id (set_task job tk'))
| step_progress reg job_id job pd :
    dict_get reg job_id = Some job ->
    step reg (dict_set reg job_id (set_progress job pd)).

Inductive reachable : Registry -> Prop :=
| reachable_initial : reachable job_registry_initial
| reachable_step reg reg' : reachable reg -> step reg reg' -> reachable reg'.

(** How one step treats a job that is already registered. *)
Inductive job_step : JobInfo -> JobInfo -> Prop :=
| job_same job : job_step job job
| job_cancel job :
    Task.done (task (runner job)) = false ->
    job_step job (set_status (set_task job (Task.Pending true)) "cancelled")
| job_task job tk' :
    Task.advance (task (runner job)) tk' -> job_step job (set_task job tk')
| job_progress job pd : job_step job (set_progress job pd).

(** A stored status is ["running"] or ["cancelled"]. *)
Definition job_ok (job : JobInfo) : Prop :=
  status job = "running" \/ status job = "cancelled".


(** Any number of steps. *)
Inductive steps : Registry -> Registry -> Prop :=
| steps_refl reg : steps reg reg
| steps_next reg reg' reg'' : steps reg reg' -> step reg' reg'' -> steps reg reg''.

(** The status stored for one job. *)
Definition stored_status (reg : Registry) (job_id : string) : option string :=
  option_map status (dict_get reg job_id).

(** "A job whose background task errored is reported as failed", for one
    way of reporting the status of a job. *)
Definition errored_job_reported_failed
    (report : Registry -> string -> option string) : Prop :=
  forall reg job_id job e,
    reachable reg ->
    dict_get reg job_id = Some job ->
    task (runner job) = Task.Failed e ->
    report reg job_id = Some "failed".

(** "The two status reports for one job never disagree as completed versus
    cancelled." *)
Definition reports_agree (reg : Registry) (job_id : string) : Prop :=
  ~ (checked_status reg job_id = Some "completed" /\
     listed_status reg job_id = Some "cancelled").

End Jobs.


(** ** Inspecting the stores of one run *)

Module Disk.

(** Modelled from the spec: the array store [FileArray] of
    [pipefunc.map._storage_array], which is not part of [src/].  The record
    holds what [_progress_info_from_disk] reads from it: [data.shape], whose
    dimensions may still be unknown, [data.size], the flags returned by
    [data.mask_linear()] and [st_size] of every regular file that
    [data.folder.rglob] finds.  As the function uses the mask, a flag that
    is set marks a position that is not filled yet. *)
Record FileArray : Type := {
  shape : list (option Z);
  size : Z;
  mask_linear : list bool;
  folder_files : list Z
}.

(** Modelled from the spec: [shape_is_resolved] of [pipefunc.map._shapes],
    not part of [src/]: every dimension is known. *)
Definition shape_is_resolved (s : list (option Z)) : bool :=
  forallb (fun d => match d with Some _ => true | None => false end) s.

Definition dimension (d : option Z) : Z :=
  match d with Some n => n | None => 1 end.

Definition product_of_dimensions (s : list (option Z)) : Z :=
  fold_right Z.mul 1%Z (map dimension s).

(** Modelled from the spec: what the spec says of an array store.  Its
    total element count is the product of its dimensions, and its mask has
    one flag per linear position. *)
Definition well_formed (fa : FileArray) : Prop :=
  size fa = product_of_dimensions (shape fa) /\
  Z.of_nat (List.length (mask_linear fa)) = size fa.

(** What [store[output_name]] may hold: an array store, a storage that is
    not a [FileArray], a path (with [st_size] when it exists) or anything
    else, given by [str(type(data))]. *)
Inductive StoreData : Type :=
| ArrayData (fa : FileArray)
| OtherStorage
| PathData (stat : option Z)
| OtherData (type_repr : string).

Record RunInfo : Type := {
  all_output_names : list string;
  init_store : dict StoreData
}.

(** [progress] is a fraction or the string ["unknown"].  Fractions are
    exact rationals; the rounding of binary floating point is not modelled. *)
Inductive Progress : Type :=
| Fraction (q : Q)
| Unknown.

Record OutputProgress : Type := {
  op_progress : Progress;
  op_complete : bool;
  op_bytes : Z
}.

(** [sum] of a list of booleans and of a list of sizes. *)
Definition sum_flags (m : list bool) : Z :=
  fold_right (fun (b : bool) (acc : Z) => ((if b then 1 else 0) + acc)%Z) 0%Z m.

Definition sum_sizes (l : list Z) : Z := fold_right Z.add 0%Z l.

(** The number of positions whose flag is clear. *)
Definition filled_count (fa : FileArray) : Z :=
  Z.of_nat (List.length (filter negb (mask_linear fa))).

(** The branches of the loop body: [progress] and [nbytes] for one store. *)
Definition inspect (data : StoreData) : outcome (Progress * Z) :=
  match data with
  | ArrayData fa =>
      progress <- (if shape_is_resolved (shape fa) then
                     if (size fa =? 0)%Z then Raised ZeroDivisionError
                     else Returned (Fraction
                            (1 - inject_Z (sum_flags (mask_linear fa))
                                 / inject_Z (size fa))%Q)
                   else Returned Unknown) ;;
      Returned (progress, sum_sizes (folder_files fa))
  | OtherStorage => Raised AssertionError
  | PathData (Some st_size) => Returned (Fraction 1%Q, st_size)
  | PathData None => Returned (Fraction 0%Q, 0%Z)
  | OtherData type_repr =>
      Raised (RuntimeError (String.append "Should not happen: " type_repr))
  end.

(** [progress == 1.0] *)
Definition is_one (p : Progress) : bool :=
  match p with
  | Fraction q => Qeq_bool q 1%Q
  | Unknown => false
  end.

Definition entry (pn : Progress * Z) : OutputProgress :=
  {| op_progress := fst pn; op_complete := is_one (fst pn); op_bytes := snd pn |}.

Definition store_item (store : dict StoreData) (output_name : string)
  : outcome StoreData :=
  match dict_get store output_name with
  | Some data => Returned data
  | None => Raised (KeyError output_name)
  end.

Fixpoint progress_loop (store : dict StoreData) (names : list string)
    (outputs : dict OutputProgress) (all_complete : bool)
  : outcome (dict OutputProgress * bool) :=
  match names with
  | [] => Returned (outputs, all_complete)
  | output_name :: rest =>
      data <- store_item store output_name ;;
      pn <- inspect data ;;
      progress_loop store rest
        (dict_set outputs output_name (entry pn))
        (all_complete && is_one (fst pn))
  end.

Definition _progress_info_from_disk (run_info : RunInfo)
  : outcome (dict OutputProgress * bool) :=
  progress_loop (init_store run_info) (all_output_names run_info) [] true.


(** "For every array store whose shape is resolved, the inspector reports
    the fraction filled_count / total_count." *)
Definition resolved_array_reports_fraction : Prop :=
  forall fa, shape_is_resolved (shape fa) = true -> well_formed fa ->
    exists q,
      inspect (ArrayData fa) = Returned (Fraction q, sum_sizes (folder_files fa)) /\
      (q == inject_Z (filled_count fa) / inject_Z (product_of_dimensions (shape fa)))%Q.

End Disk.

(** ** Listing the runs under a folder *)

Module Runs.

(** What [json.loads(path.read_text())] finds in a [run_info.json]. *)
Inductive Json : Type :=
| NotJson
| NotObject
| Object (pipefunc_version : option string).

(** The metadata file of one run folder: its modification time as
    [datetime.fromtimestamp(st_mtime).isoformat()], its content as JSON and
    what [RunInfo.load] makes of it ([None] when it raises). *)
Record InfoFile : Type := {
  mtime_iso : string;
  json : Json;
  run_info : option Disk.RunInfo
}.

(** The part of the file system that one call looks at; it does not change
    during the call.  [iterdir] lists [str(run_folder)] for the entries of
    the folder, in the order of [Path.iterdir]. *)
Record FileSystem : Type := {
  root_exists : bool;
  root_is_dir : bool;
  iterdir : list string;
  is_dir : string -> bool;
  info_file : string -> option InfoFile
}.

Record Summary : Type := {
  all_complete : bool;
  total_outputs : nat;
  completed_outputs : nat;
  pipefunc_version : string
}.

(** A [_RunEntry] dictionary: two keys at creation, four more once the run
    was summarized. *)
Record _RunEntry : Type := {
  last_modified : string;
  run_folder : string;
  summary : option Summary
}.

Record _Runs : Type := {
  runs : list _RunEntry;
  total_count : nat;
  folder : string;
  scanned_directories : nat;
  error : option string
}.

(** The state of the first loop; [sc_run_info_path] is the variable
    [run_info_path], named by its run folder ([None]: not bound yet). *)
Record Scan : Type := {
  sc_scanned : nat;
  sc_runs : list _RunEntry;
  sc_run_info_path : option string
}.

Definition scan_step (fs : FileSystem) (st : Scan) (run_folder : string) : Scan :=
  let scanned := S (sc_scanned st) in
  if negb (is_dir fs run_folder) then
    {| sc_scanned := scanned; sc_runs := sc_runs st;
       sc_run_info_path := sc_run_info_path st |}
  else
    match info_file fs run_folder with
    | None =>
        {| sc_scanned := scanned; sc_runs := sc_runs st;
           sc_run_info_path := Some run_folder |}
    | Some f =>
        {| sc_scanned := scanned;
           sc_runs := sc_runs st ++
             [{| last_modified := mtime_iso f; run_folder := run_folder;
                 summary := None |}];
           sc_run_info_path := Some run_folder |}
    end.

Definition scan (fs : FileSystem) : Scan :=
  fold_left (scan_step fs) (iterdir fs)
    {| sc_scanned := 0; sc_runs := []; sc_run_info_path := None |}.

(** [list.sort(key=itemgetter("last_modified"), reverse=True)]: a stable
    sort, descending in the order of strings. *)
Fixpoint insert_desc (x : _RunEntry) (l : list _RunEntry) : list _RunEntry :=
  match l with
  | [] => [x]
  | y :: l' =>
      if String.ltb (last_modified x) (last_modified y)
      then y :: insert_desc x l'
      else x :: l
  end.

Definition sort_desc (l : list _RunEntry) : list _RunEntry :=
  fold_right insert_desc [] l.

Definition truncate (max_runs : option Z) (l : list _RunEntry) : list _RunEntry :=
  match max_runs with
  | Some n => if (0 <? n)%Z then firstn (Z.to_nat n) l else l
  | None => l
  end.

(** The entries that the second loop goes through. *)
Definition selected (fs : FileSystem) (max_runs : option Z) : list _RunEntry :=
  truncate max_runs (sort_desc (sc_runs (scan fs))).

Definition load (fs : FileSystem) (run_folder : string) : option Disk.RunInfo :=
  match info_file fs run_folder with
  | Some f => run_info f
  | None => None
  end.

(** [json.loads(run_info_path.read_text())] *)
Definition read_json (fs : FileSystem) (run_info_path : option string)
  : outcome Json :=
  match run_info_path with
  | None => Raised UnboundLocalError
  | Some p =>
      match info_file fs p with
      | None => Raised FileNotFoundError
      | Some f =>
          match json f with
          | NotJson => Raised JSONDecodeError
          | j => Returned j
          end
      end
  end.

(** [run_info_json.get("pipefunc_version", "unknown")] *)
Definition get_version (j : Json) : outcome string :=
  match j with
  | Object (Some v) => Returned v
  | Object None => Returned "unknown"
  | _ => Raised AttributeError
  end.

Definition count_complete (outputs : dict Disk.OutputProgress) : nat :=
  List.length (filter (fun kv => Disk.op_complete (snd kv)) outputs).

Fixpoint summarize (fs : FileSystem) (run_info_path : option string)
    (entries : list _RunEntry) (total_count : nat)
  : outcome (list _RunEntry * nat) :=
  match entries with
  | [] => Returned ([], total_count)
  | run_entry :: rest =>
      match load fs (run_folder run_entry) with
      | None =>
          r <- summarize fs run_info_path rest total_count ;;
          Returned (run_entry :: fst r, snd r)
      | Some info =>
          let total_count := S total_count in
          run_info_json <- read_json fs run_info_path ;;
          pr <- Disk._progress_info_from_disk info ;;
          version <- get_version run_info_json ;;
          let run_entry' :=
            {| last_modified := last_modified run_entry;
               run_folder := run_folder run_entry;
               summary := Some
                 {| all_complete := snd pr;
                    total_outputs := List.length (fst pr);
                    completed_outputs := count_complete (fst pr);
                    pipefunc_version := version |} |} in
          r <- summarize fs run_info_path rest total_count ;;
          Returned (run_entry' :: fst r, snd r)
      end
  end.

Definition failure (folder msg : string) : _Runs :=
  {| runs := []; total_count := 0; folder := folder;
     scanned_directories := 0; error := Some msg |}.

Definition _list_historical_runs (fs : FileSystem) (folder : string)
    (max_runs : option Z) : outcome _Runs :=
  if negb (root_exists fs) then
    Returned (failure folder ("Folder '" ++ folder ++ "' does not exist"))
  else if negb (root_is_dir fs) then
    Returned (failure folder ("'" ++ folder ++ "' is not a directory"))
  else
    let sc := scan fs in
    r <- summarize fs (sc_run_info_path sc) (selected fs max_runs) 0 ;;
    Returned {| runs := fst r; total_count := snd r; folder := folder;
                scanned_directories := sc_scanned sc; error := None |}.


(** The order that the sort puts on entries: [a] may stand before [b]. *)
Definition newer_first (a b : _RunEntry) : Prop :=
  String.leb (last_modified b) (last_modified a) = true.

(** The entries of the folder that are directories. *)
Definition subdirectories (fs : FileSystem) : list string :=
  filter (is_dir fs) (iterdir fs).

(** The entries that the second loop filled in. *)
Definition summarized (l : list _RunEntry) : list _RunEntry :=
  filter (fun e => match summary e with Some _ => true | None => false end) l.

(** A list of [last_modified] strings that goes down: every string is at
    least every string after it. *)
Definition descending (keys : list string) : Prop :=
  StronglySorted (fun a b => String.leb b a = true) keys.

(** "The count of scanned directories is the number of subdirectories of
    the folder." *)
Definition scanned_counts_subdirectories : Prop :=
  forall fs folder max_runs r,
    root_exists fs = true -> root_is_dir fs = true ->
    _list_historical_runs fs folder max_runs = Returned r ->
    scanned_directories r = List.length (subdirectories fs).

(** "The returned entries contain only candidates whose metadata loaded." *)
Definition failed_candidates_dropped : Prop :=
  forall fs folder max_runs r e,
    _list_historical_runs fs folder max_runs = Returned r ->
    In e (runs r) -> load fs (run_folder e) <> None.

End Runs.

(** ** Concrete registries and folders used below *)

Module Examples.

Import Jobs.

Definition fresh_runner : AsyncMap :=
  {| task := Task.Pending false; progress := Some [] |}.

(** One job right after [execute_pipeline_async]. *)
Definition launched : Registry :=
  fst (_execute_pipeline_async job_registry_initial (Some "demo") "job-1" None
         fresh_runner "2024-05-01T10:00:00+00:00").

Definition launched_job : JobInfo :=
  {| runner := fresh_runner;
     started_at := "2024-05-01T10:00:00+00:00";
     run_folder := "runs/job_job-1";
     status := "running";
     pipeline_name := "demo" |}.

(** The job was cancelled while its task was pending. *)
Definition cancel_requested : Registry := fst (_cancel_job launched "job-1").

Definition cancel_requested_job : JobInfo :=
  set_status (set_task launched_job (Task.Pending true)) "cancelled".

Definition some_result : Task.ResultDict := [("y", Task.NdArray [2%Z] "[4, 6]")].

(** The coroutine let the cancellation through: the task ended cancelled. *)
Definition cancelled_for_good : Registry :=
  dict_set cancel_requested "job-1"
    (set_task cancel_requested_job Task.Cancelled).

(** The task of a job that was never cancelled raised. *)
Definition errored : Registry :=
  dict_set launched "job-1" (set_task launched_job (Task.Failed "boom")).

(** The task of a job that was never cancelled raised an exception whose
    truth value is false. *)
Definition errored_falsy : Registry :=
  dict_set launched "job-1" (set_task launched_job (Task.FailedFalsy "")).

(** The task of a job that was never cancelled returned. *)
Definition finished : Registry :=
  dict_set launched "job-1" (set_task launched_job (Task.Finished some_result)).


(** An array store of shape (0,): resolved, and empty. *)
Definition empty_array : Disk.FileArray :=
  {| Disk.shape := [Some 0%Z]; Disk.size := 0%Z;
     Disk.mask_linear := []; Disk.folder_files := [] |}.

Definition empty_array_run : Disk.RunInfo :=
  {| Disk.all_output_names := ["y"];
     Disk.init_store := [("y", Disk.ArrayData empty_array)] |}.

(** An array store of shape (2, 3) with two positions filled. *)
Definition partial_array : Disk.FileArray :=
  {| Disk.shape := [Some 2%Z; Some 3%Z]; Disk.size := 6%Z;
     Disk.mask_linear := [false; true; true; false; true; true];
     Disk.folder_files := [120%Z; 136%Z] |}.

(** An array store whose second dimension is not known yet. *)
Definition unresolved_array : Disk.FileArray :=
  {| Disk.shape := [Some 2%Z; None]; Disk.size := 0%Z;
     Disk.mask_linear := []; Disk.folder_files := [64%Z] |}.

(** A run with an array output, a file output that exists and one that
    does not. *)
Definition mixed_run : Disk.RunInfo :=
  {| Disk.all_output_names := ["y"; "total"; "report"];
     Disk.init_store :=
       [("y", Disk.ArrayData partial_array);
        ("total", Disk.PathData (Some 31%Z));
        ("report", Disk.PathData None)] |}.


Definition good_info (mtime : string) : Runs.InfoFile :=
  {| Runs.mtime_iso := mtime;
     Runs.json := Runs.Object (Some "0.80.0");
     Runs.run_info := Some mixed_run |}.

(** A metadata file that is not valid JSON; [RunInfo.load] raises on it. *)
Definition corrupt_info (mtime : string) : Runs.InfoFile :=
  {| Runs.mtime_iso := mtime;
     Runs.json := Runs.NotJson;
     Runs.run_info := None |}.

(** Three valid runs, listed oldest first. *)
Definition three_runs : Runs.FileSystem :=
  {| Runs.root_exists := true;
     Runs.root_is_dir := true;
     Runs.iterdir := ["runs/a"; "runs/b"; "runs/c"];
     Runs.is_dir := fun _ => true;
     Runs.info_file := fun p =>
       if String.eqb p "runs/a" then Some (good_info "2024-05-01T10:00:00")
       else if String.eqb p "runs/b" then Some (good_info "2024-05-02T09:30:00.250000")
       else if String.eqb p "runs/c" then Some (good_info "2024-05-03T08:00:00")
       else None |}.

(** A folder with one plain file and one valid run. *)
Definition file_and_run : Runs.FileSystem :=
  {| Runs.root_exists := true;
     Runs.root_is_dir := true;
     Runs.iterdir := ["runs/notes.txt"; "runs/a"];
     Runs.is_dir := fun p => String.eqb p "runs/a";
     Runs.info_file := fun p =>
       if String.eqb p "runs/a" then Some (good_info "2024-05-01T10:00:00")
       else None |}.

(** A folder whose only run has corrupt metadata. *)
Definition corrupt_only : Runs.FileSystem :=
  {| Runs.root_exists := true;
     Runs.root_is_dir := true;
     Runs.iterdir := ["runs/a"];
     Runs.is_dir := fun _ => true;
     Runs.info_file := fun p =>
       if String.eqb p "runs/a" then Some (corrupt_info "2024-05-01T10:00:00")
       else None |}.

(** A valid run, and a run with corrupt metadata that is listed last. *)
Definition good_then_corrupt : Runs.FileSystem :=
  {| Runs.root_exists := true;
     Runs.root_is_dir := true;
     Runs.iterdir := ["runs/good"; "runs/bad"];
     Runs.is_dir := fun _ => true;
     Runs.info_file := fun p =>
       if String.eqb p "runs/good" then Some (good_info "2024-05-02T10:00:00")
       else if String.eqb p "runs/bad" then Some (corrupt_info "2024-05-01T10:00:00")
       else None |}.

(** The valid run alone. *)
Definition good_only : Runs.FileSystem :=
  {| Runs.root_exists := true;
     Runs.root_is_dir := true;
     Runs.iterdir := ["runs/good"];
     Runs.is_dir := fun _ => true;
     Runs.info_file := fun p =>
       if String.eqb p "runs/good" then Some (good_info "2024-05-02T10:00:00")
       else None |}.

End Examples.


(** ** Launches, counted *)

Module JobsTrace.

Import Jobs.

(** [launched n reg]: the registry [reg] is reached from the empty one by
    steps of which [n] are launches. *)
Inductive launched : nat -> Registry -> Prop :=
| launched_initial : launched 0 job_registry_initial
| launched_launch n reg name job_id folder pd now :
    launched n reg ->
    dict_get reg job_id = None ->
    launched (S n)
      (fst (_execute_pipeline_async reg name job_id folder
              {| task := Task.Pending false; progress := pd |} now))
| launched_cancel n reg job_id :
    launched n reg -> launched n (fst (_cancel_job reg job_id))
| launched_task n reg job_id job tk' :
    launched n reg ->
    dict_get reg job_id = Some job ->
    Task.advance (task (runner job)) tk' ->
    launched n (dict_set reg job_id (set_task job tk'))
| launched_progress n reg job_id job pd :
    launched n reg ->
    dict_get reg job_id = Some job ->
    launched n (dict_set reg job_id (set_progress job pd)).

(** [has_error] as [_list_jobs] computes it for a task that is not
    cancelled. *)
Definition task_failed (tk : Task.t) : bool :=
  match tk with
  | Task.Failed _ | Task.FailedFalsy _ => true
  | _ => false
  end.

Definition task_cancelled (job : JobInfo) : Prop :=
  task (runner job) = Task.Cancelled.

(** The entry of [_list_jobs] for one item of the registry. *)
Definition summary_of (kv : string * JobInfo) : JobSummary :=
  {| js_job_id := fst kv;
     js_pipeline_name := pipeline_name (snd kv);
     js_status := status (snd kv);
     js_run_folder := run_folder (snd kv);
     js_started_at := started_at (snd kv);
     js_has_error := task_failed (task (runner (snd kv))) |}.

(** The task of a job stored as ["cancelled"] was asked to cancel, or
    ended cancelled. *)
Definition cancel_respected (job : JobInfo) : Prop :=
  status job = "cancelled" ->
  task (runner job) = Task.Pending true \/ task (runner job) = Task.Cancelled.

(** The task raised [e]. *)
Definition errored_with (job : JobInfo) (e : string) : Prop :=
  task (runner job) = Task.Failed e \/ task (runner job) = Task.FailedFalsy e.

(** The statuses that [JobInfo.status] declares. *)
Definition declared_statuses : list string := ["running"; "completed"; "cancelled"].

(** The declared statuses other than ["running"]. *)
Definition terminal_statuses : list string := ["completed"; "cancelled"].

End JobsTrace.

(** ** Outputs that can be inspected *)

Module DiskTerms.

Import Disk.

(** What the loop body computes for one output name. *)
Definition inspect_name (store : dict StoreData) (name : string)
  : outcome (Progress * Z) :=
  data <- store_item store name ;; inspect data.

(** The store has the name, and what it holds can be inspected. *)
Definition inspectable (store : dict StoreData) (name : string) : Prop :=
  exists pn, inspect_name store name = Returned pn.

(** Every entry of [outs] is the entry of its name in the store. *)
Definition from_store (store : dict StoreData) (outs : dict OutputProgress) : Prop :=
  forall name o, dict_get outs name = Some o ->
    exists pn, inspect_name store name = Returned pn /\ o = entry pn.

Definition complete_item (kv : string * OutputProgress) : bool :=
  op_complete (snd kv).

End DiskTerms.

(** ** More concrete runs *)

Module MoreExamples.


(** An array store of shape (2, 2), all filled. *)
Definition full_array : Disk.FileArray :=
  {| Disk.shape := [Some 2%Z; Some 2%Z]; Disk.size := 4%Z;
     Disk.mask_linear := [false; false; false; false];
     Disk.folder_files := [10%Z; 10%Z; 10%Z; 10%Z] |}.

(** A run that is complete. *)
Definition complete_run : Disk.RunInfo :=
  {| Disk.all_output_names := ["y"; "total"];
     Disk.init_store :=
       [("y", Disk.ArrayData full_array);
        ("total", Disk.PathData (Some 31%Z))] |}.

(** A run with an array whose shape is not known yet. *)
Definition waiting_run : Disk.RunInfo :=
  {| Disk.all_output_names := ["total"; "z"];
     Disk.init_store :=
       [("total", Disk.PathData (Some 31%Z));
        ("z", Disk.ArrayData Examples.unresolved_array)] |}.


(** Two valid runs with the same modification time, and an older one
    between them. *)
Definition tied_runs : Runs.FileSystem :=
  {| Runs.root_exists := true;
     Runs.root_is_dir := true;
     Runs.iterdir := ["runs/b"; "runs/old"; "runs/a"];
     Runs.is_dir := fun _ => true;
     Runs.info_file := fun p =>
       if String.eqb p "runs/old"
       then Some (Examples.good_info "2024-05-01T10:00:00")
       else if String.eqb p "runs/a" then Some (Examples.good_info "2024-05-02T10:00:00")
       else if String.eqb p "runs/b" then Some (Examples.good_info "2024-05-02T10:00:00")
       else None |}.

(** A folder that does not exist. *)
Definition no_folder : Runs.FileSystem :=
  {| Runs.root_exists := false;
     Runs.root_is_dir := false;
     Runs.iterdir := [];
     Runs.is_dir := fun _ => false;
     Runs.info_file := fun _ => None |}.

End MoreExamples.

(** ** Inspecting one run folder, and terms for the listing *)

Module RunsTerms.

Import Runs.

(** The answer of [_run_info]: an error, or the metadata with the outputs
    and the completion flag. *)
Inductive RunInfoResponse : Type :=
| RunInfoError (error : string)
| RunInfoReport (run_info : Json) (outputs : dict Disk.OutputProgress)
    (all_complete : bool).

(** [_run_info]; [load_error] gives [str(e)] for the exception that
    [RunInfo.load] raises on a folder. *)
Definition _run_info (fs : FileSystem) (load_error : string -> string)
    (run_folder : string) : outcome RunInfoResponse :=
  match load fs run_folder with
  | None => Returned (RunInfoError (load_error run_folder))
  | Some run_info =>
      pr <- Disk._progress_info_from_disk run_info ;;
      run_info_json <- read_json fs (Some run_folder) ;;
      Returned (RunInfoReport run_info_json (fst pr) (snd pr))
  end.

(** The entries of the folder that are directories with a metadata file. *)
Definition is_candidate (fs : FileSystem) (p : string) : bool :=
  is_dir fs p && match info_file fs p with Some _ => true | None => false end.

Definition candidates (fs : FileSystem) : list string :=
  filter (is_candidate fs) (iterdir fs).

(** The entry that the first loop makes for a candidate. *)
Definition new_entry (fs : FileSystem) (p : string) : _RunEntry :=
  {| last_modified :=
       match info_file fs p with Some f => mtime_iso f | None => "" end;
     run_folder := p;
     summary := None |}.

(** The last directory among the entries of the folder, if any. *)
Definition last_subdirectory (fs : FileSystem) : option string :=
  last (map Some (subdirectories fs)) None.

(** [max_runs] does not limit: it is absent or not positive. *)
Definition unlimited (max_runs : option Z) : Prop :=
  match max_runs with
  | Some n => (n <= 0)%Z
  | None => True
  end.

(** The two keys that an entry has from the first loop. *)
Definition entry_keys (e : _RunEntry) : string * string :=
  (last_modified e, run_folder e).

Definition has_time (k : string) (e : _RunEntry) : bool :=
  String.eqb (last_modified e) k.

Definition unsummarized (e : _RunEntry) : Prop := summary e = None.


(** How the second loop, reading the metadata file named by
    [run_info_path], turns the entry [e] into [e']: an entry whose run does
    not load is left as it is, the others get their summary. *)
Definition summarized_from (fs : FileSystem) (run_info_path : option string)
    (e e' : _RunEntry) : Prop :=
  entry_keys e' = entry_keys e /\
  match load fs (run_folder e) with
  | None => e' = e
  | Some info =>
      exists j pr v,
        read_json fs run_info_path = Returned j /\
        Disk._progress_info_from_disk info = Returned pr /\
        get_version j = Returned v /\
        summary e' = Some {| all_complete := snd pr;
                             total_outputs := List.length (fst pr);
                             completed_outputs := count_complete (fst pr);
                             pipefunc_version := v |}
  end.

Definition loads (fs : FileSystem) (e : _RunEntry) : bool :=
  match load fs (run_folder e) with Some _ => true | None => false end.

End RunsTerms.
(** * Properties *)

(** ** Dictionaries *)

Section DictFacts.
Context {V : Type}.
Implicit Types (d : dict V) (k : string) (v : V).

Lemma dict_get_set_same d k v : dict_get (dict_set d k v) k = Some v.
Proof.
  induction d as [|[k' v'] d IH]; simpl.
  - now rewrite String.eqb_refl.
  - destruct (String.eqb k' k) eqn:E; simpl; rewrite E; auto.
Qed.

Lemma dict_get_set_other d k k' v :
  k <> k' -> dict_get (dict_set d k v) k' = dict_get d k'.
Proof.
  intros Hne. induction d as [|[k0 v0] d IH]; simpl.
  - destruct (String.eqb k k') eqn:E; auto.
    apply String.eqb_eq in E. contradiction.
  - destruct (String.eqb k0 k) eqn:E; simpl.
    + apply String.eqb_eq in E. subst k0.
      destruct (String.eqb k k') eqn:E'; auto.
      apply String.eqb_eq in E'. contradiction.
    + now rewrite IH.
Qed.

Lemma dict_set_length_present d k v v0 :
  dict_get d k = Some v0 -> List.length (dict_set d k v) = List.length d.
Proof.
  induction d as [|[k' v'] d IH]; simpl; try discriminate.
  destruct (String.eqb k' k) eqn:E; simpl; auto.
Qed.

End DictFacts.

(** ** The background task *)

Lemma advance_from_pending tk tk' : Task.advance tk tk' -> Task.done tk = false.
Proof. now destruct 1. Qed.

Lemma advance_to_done tk tk' : Task.advance tk tk' -> Task.done tk' = true.
Proof. now destruct 1. Qed.

(** ** The job registry *)

Module JobsFacts.

Import Jobs.

Lemma step_job reg reg' job_id job :
  step reg reg' -> dict_get reg job_id = Some job ->
  exists job', dict_get reg' job_id = Some job' /\ job_step job job'.
Proof.
  intros Hstep Hget. destruct Hstep as
    [reg name id folder pd now Hfresh | reg id | reg id j tk' Hj Hadv | reg id j pd Hj].
  - simpl. exists job. split; [|constructor].
    rewrite dict_get_set_other; auto. congruence.
  - unfold _cancel_job. destruct (dict_get reg id) as [j|] eqn:Hj; simpl.
    2:{ exists job. split; [assumption|constructor]. }
    destruct (Task.done (task (runner j))) eqn:Hd; simpl.
    { exists job. split; [assumption|constructor]. }
    destruct (string_dec id job_id) as [->|Hne].
    + rewrite dict_get_set_same. rewrite Hget in Hj. injection Hj as <-.
      eexists. split; [reflexivity|].
      destruct (task (runner job)) eqn:Ht; try discriminate. simpl.
      apply job_cancel. now rewrite Ht.
    + rewrite dict_get_set_other by assumption.
      exists job. split; [assumption|constructor].
  - destruct (string_dec id job_id) as [->|Hne].
    + rewrite dict_get_set_same. rewrite Hget in Hj. injection Hj as <-.
      eexists. split; [reflexivity|]. now apply job_task.
    + rewrite dict_get_set_other by assumption.
      exists job. split; [assumption|constructor].
  - destruct (string_dec id job_id) as [->|Hne].
    + rewrite dict_get_set_same. rewrite Hget in Hj. injection Hj as <-.
      eexists. split; [reflexivity|]. apply job_progress.
    + rewrite dict_get_set_other by assumption.
      exists job. split; [assumption|constructor].
Qed.

Lemma job_step_ok job job' : job_step job job' -> job_ok job -> job_ok job'.
Proof.
  destruct 1; unfold job_ok; simpl; auto.
Qed.

Lemma reachable_job_ok reg :
  reachable reg -> forall job_id job, dict_get reg job_id = Some job -> job_ok job.
Proof.
  induction 1 as [|reg reg' Hreach IH Hstep]; intros job_id job Hget.
  - discriminate.
  - destruct (dict_get reg job_id) as [job0|] eqn:H0.
    + destruct (step_job _ _ _ _ Hstep H0) as (job' & Hget' & Hjs).
      rewrite Hget in Hget'. injection Hget' as <-.
      eapply job_step_ok; eauto.
    + destruct Hstep as
        [reg name id folder pd now Hfresh | reg id | reg id j tk' Hj Hadv | reg id j pd Hj].
      * simpl in Hget. destruct (string_dec id job_id) as [->|Hne].
        -- rewrite dict_get_set_same in Hget. injection Hget as <-. now left.
        -- rewrite dict_get_set_other in Hget by assumption. congruence.
      * unfold _cancel_job in Hget.
        destruct (dict_get reg id) as [j|] eqn:Hj; simpl in Hget; [|congruence].
        destruct (Task.done (task (runner j))); simpl in Hget; [congruence|].
        destruct (string_dec id job_id) as [->|Hne]; [congruence|].
        rewrite dict_get_set_other in Hget by assumption. congruence.
      * destruct (string_dec id job_id) as [->|Hne]; [congruence|].
        rewrite dict_get_set_other in Hget by assumption. congruence.
      * destruct (string_dec id job_id) as [->|Hne]; [congruence|].
        rewrite dict_get_set_other in Hget by assumption. congruence.
Qed.

End JobsFacts.

Module JobsClaims.

Import Jobs JobsFacts.

Lemma steps_job reg reg' :
  steps reg reg' ->
  forall job_id job, dict_get reg job_id = Some job -> status job = "cancelled" ->
  exists job', dict_get reg' job_id = Some job' /\ status job' = "cancelled".
Proof.
  induction 1 as [reg|reg reg' reg'' Hsteps IH Hstep]; intros job_id job Hget Hst.
  - eauto.
  - destruct (IH _ _ Hget Hst) as (job1 & Hget1 & Hst1).
    destruct (step_job _ _ _ _ Hstep Hget1) as (job2 & Hget2 & Hjs).
    exists job2. split; [assumption|].
    destruct Hjs; simpl; auto.
Qed.

Lemma reachable_launched : reachable Examples.launched.
Proof.
  apply (reachable_step job_registry_initial); [constructor|].
  exact (step_launch job_registry_initial (Some "demo") "job-1" None (Some [])
           "2024-05-01T10:00:00+00:00" eq_refl).
Qed.

Lemma reachable_cancel_requested : reachable Examples.cancel_requested.
Proof.
  apply (reachable_step Examples.launched); [apply reachable_launched|].
  apply step_cancel.
Qed.

Lemma reachable_cancelled_for_good : reachable Examples.cancelled_for_good.
Proof.
  apply (reachable_step Examples.cancel_requested);
    [apply reachable_cancel_requested|].
  apply (step_task Examples.cancel_requested "job-1" Examples.cancel_requested_job).
  - reflexivity.
  - apply Task.advance_cancelled.
Qed.

Lemma reachable_errored_falsy : reachable Examples.errored_falsy.
Proof.
  apply (reachable_step Examples.launched); [apply reachable_launched|].
  apply (step_task Examples.launched "job-1" Examples.launched_job).
  - reflexivity.
  - apply Task.advance_error_falsy.
Qed.

Lemma reachable_errored : reachable Examples.errored.
Proof.
  apply (reachable_step Examples.launched); [apply reachable_launched|].
  apply (step_task Examples.launched "job-1" Examples.launched_job).
  - reflexivity.
  - apply Task.advance_error.
Qed.

(** A task that ended cancelled: [task.exception()] raises, and so does
    [_check_job_status]. *)
Lemma check_job_status_cancelled_task reg job_id job pd :
  dict_get reg job_id = Some job ->
  progress (runner job) = Some pd ->
  task (runner job) = Task.Cancelled ->
  _check_job_status reg job_id = Raised CancelledError.
Proof.
  intros Hget Hpd Htk. unfold _check_job_status.
  now rewrite Hget, Hpd, Htk.
Qed.

(** Once a cancelled job's task has ended cancelled, neither tool answers
    any more: [task.exception()] raises in both. *)
Lemma cancelled_task_breaks_reports :
  reachable Examples.cancelled_for_good /\
  _check_job_status Examples.cancelled_for_good "job-1" = Raised CancelledError /\
  _list_jobs Examples.cancelled_for_good = Raised CancelledError.
Proof.
  repeat split. apply reachable_cancelled_for_good.
Qed.

(** C8. For a [job_id] that is not in the registry, [_check_job_status] and
    [_cancel_job] both answer with the not-found dictionary
    [{"error": "Job not found"}]; neither raises, and the registry is left
    as it was. *)
Theorem unknown_job_not_found (reg : Registry) (job_id : string) :
  dict_get reg job_id = None ->
  _check_job_status reg job_id = Returned (ErrorOnly "Job not found") /\
  _cancel_job reg job_id = (reg, ErrorOnly "Job not found").
Proof.
  intros Hget. unfold _check_job_status, _cancel_job. now rewrite Hget.
Qed.

Lemma unknown_job_not_found_witness :
  _check_job_status Examples.launched "job-2" = Returned (ErrorOnly "Job not found") /\
  _cancel_job Examples.launched "job-2" = (Examples.launched, ErrorOnly "Job not found").
Proof.
  apply (unknown_job_not_found Examples.launched "job-2"). reflexivity.
Defined.

(** C7. When the task of a registered job is already done, [_cancel_job]
    answers with the error dictionary for a job that is already over and
    changes nothing: the registry afterwards is the registry before, so the
    stored status is the same and the task was not asked to cancel. *)
Theorem cancel_done_job_refused (reg : Registry) (job_id : string) (job : JobInfo) :
  dict_get reg job_id = Some job ->
  Task.done (task (runner job)) = true ->
  _cancel_job reg job_id =
    (reg, ErrorForJob "Job not found or already completed" job_id) /\
  dict_get (fst (_cancel_job reg job_id)) job_id = Some job.
Proof.
  intros Hget Hdone. unfold _cancel_job. rewrite Hget, Hdone. simpl. auto.
Qed.

Lemma cancel_done_job_refused_witness :
  _cancel_job Examples.finished "job-1" =
    (Examples.finished, ErrorForJob "Job not found or already completed" "job-1") /\
  dict_get (fst (_cancel_job Examples.finished "job-1")) "job-1" =
    Some (set_task Examples.launched_job (Task.Finished Examples.some_result)).
Proof.
  apply (cancel_done_job_refused Examples.finished "job-1"
           (set_task Examples.launched_job (Task.Finished Examples.some_result)));
    reflexivity.
Defined.

(** What [_check_job_status] answers for a registered job whose progress
    tracker exists:
    - an answer has a ["results"] key exactly when the task is done and
      [task.exception()] is [None];
    - when the task returned, the answer carries its results, rendered, and
      a null error;
    - when the task raised an exception whose truth value is true, the
      answer carries [str] of the exception in ["error"] and has no results;
    - when the task is not done, there are no results and the error is
      null. *)
Lemma check_job_status_cases (reg : Registry) (job_id : string)
    (job : JobInfo) (pd : dict ProgressSnapshot) :
  dict_get reg job_id = Some job ->
  progress (runner job) = Some pd ->
  (forall info, _check_job_status reg job_id = Returned (JobStatus info) ->
     (si_results info <> None <->
      Task.done (task (runner job)) = true /\
      Task.exception (task (runner job)) = Returned None)) /\
  (forall r, task (runner job) = Task.Finished r ->
     exists info, _check_job_status reg job_id = Returned (JobStatus info) /\
       si_results info = Some (render_results r) /\ si_error info = None) /\
  (forall e, task (runner job) = Task.Failed e ->
     exists info, _check_job_status reg job_id = Returned (JobStatus info) /\
       si_error info = Some e /\ si_results info = None) /\
  (Task.done (task (runner job)) = false ->
     exists info, _check_job_status reg job_id = Returned (JobStatus info) /\
       si_results info = None /\ si_error info = None).
Proof.
  intros Hget Hpd. unfold _check_job_status. rewrite Hget, Hpd.
  destruct (task (runner job)) as [b|r|e|e|] eqn:Htk; simpl;
    (split; [|split; [|split]]).
  all: try (intros info [= <-]; simpl; split;
            [intros H; try (now elim H); auto | intros [? ?]; congruence]).
  all: try discriminate.
  all: try (intros ? [= <-]; eexists; split; [reflexivity|simpl; auto]).
  all: try (intros _; eexists; split; [reflexivity|simpl; auto]).
  all: try (intros; discriminate).
Qed.

(** C10. Two registered jobs for which [_check_job_status] gives no
    response at all.  The first was cancelled through [_cancel_job] and its
    task then ended cancelled: the task is done, [task.exception()] raises
    [CancelledError] and the error escapes the tool.  The task of the second
    raised an exception whose truth value is false: the tool takes the task
    for one without exception, calls [task.result()], and the exception of
    the task escapes. *)
Theorem cancelled_job_gets_no_response :
  reachable Examples.cancelled_for_good /\
  (exists job, dict_get Examples.cancelled_for_good "job-1" = Some job /\
               Task.done (task (runner job)) = true /\
               progress (runner job) = Some []) /\
  _check_job_status Examples.cancelled_for_good "job-1" = Raised CancelledError /\
  reachable Examples.errored_falsy /\
  (exists job, dict_get Examples.errored_falsy "job-1" = Some job /\
               task (runner job) = Task.FailedFalsy "") /\
  _check_job_status Examples.errored_falsy "job-1" = Raised (TaskError "").
Proof.
  split; [apply reachable_cancelled_for_good|].
  split; [eexists; repeat split|].
  split; [reflexivity|].
  split; [apply reachable_errored_falsy|].
  split; [eexists; repeat split|]. reflexivity.
Qed.

(** C2, as stated, fails: the task of a reachable job raised, and the job is
    reported as ["failed"] neither by its stored status (["running"]), nor
    by [_check_job_status] (["completed"]), nor by [_list_jobs]
    (["running"]). *)
Lemma errored_job_not_reported_failed :
  ~ errored_job_reported_failed stored_status /\
  ~ errored_job_reported_failed checked_status /\
  ~ errored_job_reported_failed listed_status.
Proof.
  repeat split; intros H;
    specialize (H Examples.errored "job-1"
                  (set_task Examples.launched_job (Task.Failed "boom")) "boom"
                  reachable_errored eq_refl eq_refl);
    discriminate H.
Qed.

End JobsClaims.

(** ** Inspecting the stores of one run *)

Module DiskFacts.

Import Disk.

Lemma sum_flags_filled (m : list bool) :
  (sum_flags m + Z.of_nat (List.length (filter negb m)) = Z.of_nat (List.length m))%Z.
Proof.
  induction m as [|b m IH]; [reflexivity|].
  destruct b; cbn [sum_flags fold_right filter negb List.length];
    fold (sum_flags m); lia.
Qed.

(** A name that already has its entry keeps it through the loop, when the
    loop can only write the same entry again. *)
Lemma progress_loop_keeps store names :
  forall outs ac outs' ac' name v,
    progress_loop store names outs ac = Returned (outs', ac') ->
    dict_get outs name = Some v ->
    (forall data pn, store_item store name = Returned data ->
                     inspect data = Returned pn -> entry pn = v) ->
    dict_get outs' name = Some v.
Proof.
  induction names as [|output_name rest IH]; intros outs ac outs' ac' name v Hloop Hget Hsame.
  - simpl in Hloop. injection Hloop as Houts _. now rewrite <- Houts.
  - cbn [progress_loop] in Hloop.
    destruct (store_item store output_name) as [data|] eqn:Hitem;
      cbn [bind] in Hloop; [|discriminate].
    destruct (inspect data) as [pn|] eqn:Hpn;
      cbn [bind] in Hloop; [|discriminate].
    eapply IH; [exact Hloop| |exact Hsame].
    destruct (string_dec output_name name) as [->|Hne].
    + rewrite dict_get_set_same. f_equal. eauto.
    + now rewrite dict_get_set_other.
Qed.

(** What the loop returns holds, for every output name, the entry made
    from the store of that name. *)
Lemma progress_loop_lookup store names :
  forall outs ac outs' ac' name data,
    progress_loop store names outs ac = Returned (outs', ac') ->
    In name names ->
    store_item store name = Returned data ->
    exists pn, inspect data = Returned pn /\ dict_get outs' name = Some (entry pn).
Proof.
  induction names as [|output_name rest IH]; intros outs ac outs' ac' name data Hloop Hin Hitem.
  - contradiction.
  - cbn [progress_loop] in Hloop.
    destruct (store_item store output_name) as [data0|] eqn:Hitem0;
      cbn [bind] in Hloop; [|discriminate].
    destruct (inspect data0) as [pn|] eqn:Hpn;
      cbn [bind] in Hloop; [|discriminate].
    destruct (in_dec string_dec name rest) as [Hrest|Hnot].
    + eapply IH; eauto.
    + destruct Hin as [->|Hin]; [|contradiction].
      rewrite Hitem in Hitem0. injection Hitem0 as <-.
      exists pn. split; [assumption|].
      eapply progress_loop_keeps; [exact Hloop| |].
      * apply dict_get_set_same.
      * intros data1 pn1 H1 H2. congruence.
Qed.

(** The loop returns when every name has a store that can be inspected. *)
Lemma progress_loop_returns store names :
  (forall name, In name names ->
     exists data pn, store_item store name = Returned data /\
                     inspect data = Returned pn) ->
  forall outs ac, exists r, progress_loop store names outs ac = Returned r.
Proof.
  induction names as [|output_name rest IH]; intros Hall outs ac.
  - eexists. reflexivity.
  - destruct (Hall output_name (or_introl eq_refl)) as (data & pn & Hitem & Hpn).
    cbn [progress_loop]. rewrite Hitem. cbn [bind]. rewrite Hpn. cbn [bind].
    apply IH. intros name Hin. apply Hall. now right.
Qed.


Lemma progress_info_lookup run_info outs ac name data :
  _progress_info_from_disk run_info = Returned (outs, ac) ->
  In name (all_output_names run_info) ->
  dict_get (init_store run_info) name = Some data ->
  exists pn, inspect data = Returned pn /\ dict_get outs name = Some (entry pn).
Proof.
  intros Hret Hin Hget. eapply progress_loop_lookup; eauto.
  unfold store_item. now rewrite Hget.
Qed.

End DiskFacts.

Module DiskClaims.

Import Disk DiskFacts.

(** C4. For an array store of shape (0,), which is resolved and has an
    empty mask, the division by [data.size] raises [ZeroDivisionError]:
    the inspector reports no fraction for the output, and
    [_progress_info_from_disk] reports nothing for the run. *)
Theorem empty_array_not_reported :
  shape_is_resolved (shape Examples.empty_array) = true /\
  well_formed Examples.empty_array /\
  inspect (ArrayData Examples.empty_array) = Raised ZeroDivisionError /\
  _progress_info_from_disk Examples.empty_array_run = Raised ZeroDivisionError /\
  ~ resolved_array_reports_fraction.
Proof.
  repeat split.
  intros H.
  destruct (H Examples.empty_array eq_refl (conj eq_refl eq_refl)) as (q & Hq & _).
  discriminate Hq.
Qed.

(** C9. For an output kept in a single file, the progress is 1.0 and the
    bytes are the size of the file when the file exists, and the progress
    is 0.0 with 0 bytes when it does not; no other fraction occurs.  The
    entry that [_progress_info_from_disk] returns for the output holds
    these values, and is complete exactly when the file exists. *)
Theorem single_file_progress (stat : option Z) :
  inspect (PathData stat) =
    Returned (match stat with
              | Some st_size => (Fraction 1, st_size)
              | None => (Fraction 0, 0%Z)
              end) /\
  (forall run_info name outs ac,
     _progress_info_from_disk run_info = Returned (outs, ac) ->
     In name (all_output_names run_info) ->
     dict_get (init_store run_info) name = Some (PathData stat) ->
     dict_get outs name =
       Some (match stat with
             | Some st_size =>
                 {| op_progress := Fraction 1; op_complete := true;
                    op_bytes := st_size |}
             | None =>
                 {| op_progress := Fraction 0; op_complete := false;
                    op_bytes := 0%Z |}
             end)).
Proof.
  split.
  - now destruct stat.
  - intros run_info name outs ac Hret Hin Hget.
    destruct (progress_info_lookup run_info outs ac name _ Hret Hin Hget)
      as (pn & Hpn & Hout).
    rewrite Hout. destruct stat; simpl in Hpn; injection Hpn as <-; reflexivity.
Qed.

Lemma single_file_progress_witness :
  exists outs ac,
    _progress_info_from_disk Examples.mixed_run = Returned (outs, ac) /\
    dict_get outs "total" =
      Some {| op_progress := Fraction 1; op_complete := true; op_bytes := 31%Z |}.
Proof.
  eexists. eexists. split; [reflexivity|].
  refine (proj2 (single_file_progress (Some 31%Z)) Examples.mixed_run "total"
            _ _ eq_refl _ eq_refl).
  simpl. auto.
Defined.

End DiskClaims.

(** ** Listing the runs under a folder *)

Module RunsFacts.

Import Runs.

(** *** The order of strings *)

Lemma ascii_compare_refl a : Ascii.compare a a = Eq.
Proof. unfold Ascii.compare. apply N.compare_refl. Qed.

Lemma ascii_compare_lt_trans a b c :
  Ascii.compare a b = Lt -> Ascii.compare b c = Lt -> Ascii.compare a c = Lt.
Proof.
  unfold Ascii.compare. rewrite !N.compare_lt_iff. apply N.lt_trans.
Qed.

Lemma string_compare_refl s : String.compare s s = Eq.
Proof.
  induction s as [|a s IH]; simpl; [reflexivity|].
  now rewrite ascii_compare_refl.
Qed.

Lemma string_compare_lt_trans s1 :
  forall s2 s3, String.compare s1 s2 = Lt -> String.compare s2 s3 = Lt ->
                String.compare s1 s3 = Lt.
Proof.
  induction s1 as [|a s1 IH]; intros [|b s2] [|c s3]; simpl; try congruence.
  destruct (Ascii.compare a b) eqn:Hab; try discriminate;
    destruct (Ascii.compare b c) eqn:Hbc; try discriminate.
  - apply Ascii.compare_eq_iff in Hab, Hbc. subst.
    rewrite ascii_compare_refl. apply IH.
  - apply Ascii.compare_eq_iff in Hab. subst. now rewrite Hbc.
  - apply Ascii.compare_eq_iff in Hbc. subst. now rewrite Hab.
  - now rewrite (ascii_compare_lt_trans a b c Hab Hbc).
Qed.

Lemma string_leb_trans s1 s2 s3 :
  String.leb s1 s2 = true -> String.leb s2 s3 = true -> String.leb s1 s3 = true.
Proof.
  unfold String.leb.
  destruct (String.compare s1 s2) eqn:H12; try discriminate;
    destruct (String.compare s2 s3) eqn:H23; try discriminate; intros _ _.
  - apply String.compare_eq_iff in H12, H23. subst.
    now rewrite string_compare_refl.
  - apply String.compare_eq_iff in H12. subst. now rewrite H23.
  - apply String.compare_eq_iff in H23. subst. now rewrite H12.
  - now rewrite (string_compare_lt_trans s1 s2 s3 H12 H23).
Qed.

Lemma string_ltb_leb s1 s2 : String.ltb s1 s2 = true -> String.leb s1 s2 = true.
Proof.
  unfold String.ltb, String.leb. now destruct (String.compare s1 s2).
Qed.

Lemma string_not_ltb_leb s1 s2 : String.ltb s1 s2 = false -> String.leb s2 s1 = true.
Proof.
  unfold String.ltb, String.leb. rewrite (String.compare_antisym s2 s1).
  now destruct (String.compare s1 s2).
Qed.


(** *** Sorting and truncating *)

Lemma insert_desc_forall (P : _RunEntry -> Prop) x l :
  P x -> Forall P l -> Forall P (insert_desc x l).
Proof.
  intros Hx Hl. induction Hl as [|y l Hy Hl IH]; simpl.
  - auto.
  - destruct (String.ltb (last_modified x) (last_modified y)); auto.
Qed.

Lemma insert_desc_sorted x l :
  StronglySorted newer_first l -> StronglySorted newer_first (insert_desc x l).
Proof.
  induction 1 as [|y l Hsorted IH Hall]; simpl.
  - repeat constructor.
  - destruct (String.ltb (last_modified x) (last_modified y)) eqn:Hlt.
    + constructor; [assumption|].
      apply insert_desc_forall; [|assumption].
      now apply string_ltb_leb.
    + apply string_not_ltb_leb in Hlt.
      constructor; [now constructor|].
      constructor; [exact Hlt|].
      eapply Forall_impl; [|exact Hall].
      intros z Hz. unfold newer_first in *.
      eapply string_leb_trans; eauto.
Qed.

Lemma sort_desc_sorted l : StronglySorted newer_first (sort_desc l).
Proof.
  induction l as [|x l IH]; simpl; [constructor|].
  now apply insert_desc_sorted.
Qed.

Lemma insert_desc_perm x l : Permutation (x :: l) (insert_desc x l).
Proof.
  induction l as [|y l IH]; simpl; [reflexivity|].
  destruct (String.ltb (last_modified x) (last_modified y)); [|reflexivity].
  rewrite perm_swap. now constructor.
Qed.

Lemma sort_desc_perm l : Permutation l (sort_desc l).
Proof.
  induction l as [|x l IH]; simpl; [constructor|].
  rewrite <- insert_desc_perm. now constructor.
Qed.

Lemma sort_desc_length l : List.length (sort_desc l) = List.length l.
Proof. symmetry. apply Permutation_length, sort_desc_perm. Qed.

Lemma firstn_forall {A} (P : A -> Prop) n l : Forall P l -> Forall P (firstn n l).
Proof.
  intros H. revert n. induction H; intros [|n]; simpl; auto.
Qed.

Lemma firstn_sorted {A} (R : A -> A -> Prop) n l :
  StronglySorted R l -> StronglySorted R (firstn n l).
Proof.
  intros H. revert n. induction H as [|x l Hs IH Hall]; intros [|n]; simpl;
    try constructor; auto using firstn_forall.
Qed.

Lemma truncate_sorted max_runs l :
  StronglySorted newer_first l -> StronglySorted newer_first (truncate max_runs l).
Proof.
  intros H. unfold truncate. destruct max_runs as [n|]; [|assumption].
  destruct (0 <? n)%Z; [now apply firstn_sorted|assumption].
Qed.

Lemma truncate_length_le max_runs l :
  List.length (truncate max_runs l) <= List.length l.
Proof.
  unfold truncate. destruct max_runs as [n|]; [|lia].
  destruct (0 <? n)%Z; [|lia]. rewrite length_firstn. lia.
Qed.

Lemma truncate_length_bound n l :
  (0 < n)%Z -> List.length (truncate (Some n) l) <= Z.to_nat n.
Proof.
  intros Hn. unfold truncate.
  destruct (Z.ltb_spec 0 n); [|lia]. rewrite length_firstn. lia.
Qed.

Lemma sorted_keys l :
  StronglySorted newer_first l -> descending (map last_modified l).
Proof.
  unfold descending. induction 1 as [|x l Hs IH Hall]; simpl; constructor; auto.
  rewrite Forall_map. exact Hall.
Qed.

Lemma selected_descending fs max_runs :
  descending (map last_modified (selected fs max_runs)).
Proof.
  apply sorted_keys, truncate_sorted, sort_desc_sorted.
Qed.

(** *** The two loops *)

Lemma scan_fold fs l :
  forall st,
    sc_scanned (fold_left (scan_step fs) l st) = sc_scanned st + List.length l /\
    List.length (sc_runs (fold_left (scan_step fs) l st))
      <= List.length (sc_runs st) + List.length (filter (is_dir fs) l).
Proof.
  induction l as [|p l IH]; intros st; simpl; [lia|].
  destruct (IH (scan_step fs st p)) as [Hn Hr]. rewrite Hn. clear Hn.
  unfold scan_step in *.
  destruct (is_dir fs p); simpl in *; [|lia].
  destruct (info_file fs p); simpl in *; [|lia].
  rewrite length_app in Hr. simpl in Hr. lia.
Qed.

Lemma scan_scanned fs : sc_scanned (scan fs) = List.length (iterdir fs).
Proof. unfold scan. now rewrite (proj1 (scan_fold fs (iterdir fs) _)). Qed.

Lemma scan_runs_length fs :
  List.length (sc_runs (scan fs)) <= List.length (subdirectories fs).
Proof. unfold scan. exact (proj2 (scan_fold fs (iterdir fs) _)). Qed.

Lemma subdirectories_length fs :
  List.length (subdirectories fs) <= List.length (iterdir fs).
Proof. apply filter_length_le. Qed.

Lemma selected_length fs max_runs :
  List.length (selected fs max_runs) <= List.length (subdirectories fs).
Proof.
  unfold selected. rewrite truncate_length_le, sort_desc_length.
  apply scan_runs_length.
Qed.

(** The second loop keeps every entry, with its two first keys, and counts
    at most one for each. *)
Lemma summarize_shape fs path entries :
  forall tc r,
    summarize fs path entries tc = Returned r ->
    map last_modified (fst r) = map last_modified entries /\
    map run_folder (fst r) = map run_folder entries /\
    tc <= snd r <= tc + List.length entries.
Proof.
  induction entries as [|e entries IH]; intros tc r Hr; simpl in Hr.
  - injection Hr as <-. simpl. repeat split; lia.
  - destruct (load fs (run_folder e)) as [info|].
    + destruct (read_json fs path) as [j|]; cbn [bind] in Hr; [|discriminate].
      destruct (Disk._progress_info_from_disk info) as [pr|];
        cbn [bind] in Hr; [|discriminate].
      destruct (get_version j) as [v|]; cbn [bind] in Hr; [|discriminate].
      destruct (summarize fs path entries (S tc)) as [r'|] eqn:Hrest;
        cbn [bind] in Hr; [|discriminate].
      injection Hr as <-. destruct (IH _ _ Hrest) as (Hk & Hf & Hc). simpl.
      rewrite Hk, Hf. repeat split; lia.
    + destruct (summarize fs path entries tc) as [r'|] eqn:Hrest;
        cbn [bind] in Hr; [|discriminate].
      injection Hr as <-. destruct (IH _ _ Hrest) as (Hk & Hf & Hc). simpl.
      rewrite Hk, Hf. repeat split; lia.
Qed.

(** The second loop returns when the metadata file that [run_info_path]
    names can be read and every run that loads can be inspected. *)
Lemma summarize_returns fs path entries j v :
  read_json fs path = Returned j ->
  get_version j = Returned v ->
  (forall e info, In e entries -> load fs (run_folder e) = Some info ->
     exists pr, Disk._progress_info_from_disk info = Returned pr) ->
  forall tc, exists r, summarize fs path entries tc = Returned r.
Proof.
  intros Hj Hv. induction entries as [|e entries IH]; intros Hall tc.
  - eexists. reflexivity.
  - cbn [summarize].
    assert (Hrest : forall tc', exists r, summarize fs path entries tc' = Returned r).
    { apply IH. intros e' info Hin. apply Hall. now right. }
    destruct (load fs (run_folder e)) as [info|] eqn:Hload.
    + destruct (Hall e info (or_introl eq_refl) Hload) as (pr & Hpr).
      rewrite Hj. cbn [bind]. rewrite Hpr. cbn [bind]. rewrite Hv. cbn [bind].
      destruct (Hrest (S tc)) as (r & Hr). rewrite Hr. cbn [bind].
      eexists. reflexivity.
    + destruct (Hrest tc) as (r & Hr). rewrite Hr. cbn [bind].
      eexists. reflexivity.
Qed.

(** When no selected run loads, nothing else is read and the loop returns. *)
Lemma summarize_returns_unloaded fs path entries :
  (forall e, In e entries -> load fs (run_folder e) = None) ->
  forall tc, summarize fs path entries tc = Returned (entries, tc).
Proof.
  induction entries as [|e entries IH]; intros Hall tc; [reflexivity|].
  cbn [summarize]. rewrite (Hall e (or_introl eq_refl)).
  rewrite IH by (intros e' Hin; apply Hall; now right). reflexivity.
Qed.


Lemma summarize_length fs path entries tc r :
  summarize fs path entries tc = Returned r ->
  List.length (fst r) = List.length entries.
Proof.
  intros Hr. destruct (summarize_shape _ _ _ _ _ Hr) as (Hk & _).
  rewrite <- (length_map last_modified (fst r)), Hk. apply length_map.
Qed.

(** A result of [_list_historical_runs] is an error without entries, or
    comes from the two loops. *)
Lemma list_historical_runs_inv fs folder max_runs r :
  _list_historical_runs fs folder max_runs = Returned r ->
  (runs r = [] /\ total_count r = 0 /\ scanned_directories r = 0 /\
   (root_exists fs = false \/ root_is_dir fs = false)) \/
  (root_exists fs = true /\ root_is_dir fs = true /\
   scanned_directories r = sc_scanned (scan fs) /\
   summarize fs (sc_run_info_path (scan fs)) (selected fs max_runs) 0
     = Returned (runs r, total_count r)).
Proof.
  unfold _list_historical_runs.
  destruct (root_exists fs); simpl.
  2:{ intros [= <-]. left. simpl. auto. }
  destruct (root_is_dir fs); simpl.
  2:{ intros [= <-]. left. simpl. auto. }
  destruct (summarize fs _ _ 0) as [[l n]|] eqn:Hs; cbn [bind]; [|discriminate].
  intros [= <-]. right. simpl. auto.
Qed.

End RunsFacts.

Module RunsClaims.

Import Runs RunsFacts.

(** C6. The entries that the second loop goes through are in descending
    order of [last_modified], and when [max_runs] is given and positive
    there are at most [max_runs] of them: the truncation comes before the
    summaries.  Whenever [_list_historical_runs] returns, its entries are in
    descending order of [last_modified]; with a positive [max_runs] at most
    [max_runs] entries are returned, counted or summarized. *)
Theorem runs_sorted_and_truncated (fs : FileSystem) (folder : string)
    (max_runs : option Z) :
  descending (map last_modified (selected fs max_runs)) /\
  (forall n, max_runs = Some n -> (0 < n)%Z ->
     List.length (selected fs max_runs) <= Z.to_nat n) /\
  (forall r, _list_historical_runs fs folder max_runs = Returned r ->
     descending (map last_modified (runs r)) /\
     (forall n, max_runs = Some n -> (0 < n)%Z ->
        List.length (runs r) <= Z.to_nat n /\
        total_count r <= Z.to_nat n /\
        List.length (summarized (runs r)) <= Z.to_nat n)).
Proof.
  split; [apply selected_descending|].
  assert (Hbound : forall n, max_runs = Some n -> (0 < n)%Z ->
            List.length (selected fs max_runs) <= Z.to_nat n).
  { intros n -> Hn. unfold selected. now apply truncate_length_bound. }
  split; [exact Hbound|].
  intros r Hr.
  destruct (list_historical_runs_inv _ _ _ _ Hr)
    as [(Hruns & Hcount & _)|(_ & _ & _ & Hsum)].
  - rewrite Hruns, Hcount. simpl. split; [constructor|]. intros; lia.
  - destruct (summarize_shape _ _ _ _ _ Hsum) as (Hkeys & _ & Hc).
    pose proof (summarize_length _ _ _ _ _ Hsum) as Hlen.
    simpl in Hkeys, Hc, Hlen. split.
    + rewrite Hkeys. apply selected_descending.
    + intros n Hmax Hn. specialize (Hbound n Hmax Hn).
      pose proof (filter_length_le
        (fun e => match summary e with Some _ => true | None => false end)
        (runs r)) as Hf.
      unfold summarized. lia.
Qed.

Lemma runs_sorted_and_truncated_witness :
  exists r,
    _list_historical_runs Examples.three_runs "runs" (Some 2%Z) = Returned r /\
    map run_folder (runs r) = ["runs/c"; "runs/b"] /\
    List.length (runs r) <= 2.
Proof.
  eexists. split; [reflexivity|]. split; [reflexivity|].
  exact (proj1 (proj2 (proj2 (proj2
    (runs_sorted_and_truncated Examples.three_runs "runs" (Some 2%Z)))
    _ eq_refl) 2%Z eq_refl eq_refl)).
Defined.

(** C5. A folder holds a plain file and one run: [scanned_directories] is
    2, while one subdirectory was there to examine.  The count is
    incremented before the entry is known to be a directory. *)
Theorem scanned_directories_counts_files :
  (exists r,
     _list_historical_runs Examples.file_and_run "runs" None = Returned r /\
     scanned_directories r = 2 /\
     List.length (subdirectories Examples.file_and_run) = 1) /\
  ~ scanned_counts_subdirectories.
Proof.
  split.
  - eexists. split; [reflexivity|]. split; reflexivity.
  - intros H.
    specialize (H Examples.file_and_run "runs" None _ eq_refl eq_refl eq_refl).
    discriminate H.
Qed.

(** For a folder that exists and is a directory, [scanned_directories] is
    the number of entries of the folder that the first loop went through,
    plain files included, whatever was dropped later and whatever
    [max_runs] is; the number of returned entries is at most the number of
    subdirectories and so at most the count, and the number of runs counted
    in [total_count] is at most the number of returned entries. *)
Theorem scanned_directories_counts_entries (fs : FileSystem) (folder : string)
    (max_runs : option Z) (r : _Runs) :
  root_exists fs = true -> root_is_dir fs = true ->
  _list_historical_runs fs folder max_runs = Returned r ->
  sc_scanned (scan fs) = List.length (iterdir fs) /\
  scanned_directories r = List.length (iterdir fs) /\
  List.length (runs r) <= List.length (subdirectories fs) /\
  List.length (subdirectories fs) <= scanned_directories r /\
  total_count r <= List.length (runs r).
Proof.
  intros Hex Hdir Hr.
  destruct (list_historical_runs_inv _ _ _ _ Hr)
    as [(_ & _ & _ & [H|H])|(_ & _ & Hscan & Hsum)]; try congruence.
  pose proof (summarize_length _ _ _ _ _ Hsum) as Hlen.
  destruct (summarize_shape _ _ _ _ _ Hsum) as (_ & _ & Hc).
  simpl in Hlen, Hc.
  pose proof (selected_length fs max_runs).
  pose proof (subdirectories_length fs).
  rewrite Hscan, scan_scanned. repeat split; lia.
Qed.

Lemma scanned_directories_counts_entries_witness :
  exists r,
    _list_historical_runs Examples.file_and_run "runs" None = Returned r /\
    scanned_directories r = 2 /\ List.length (runs r) <= 1.
Proof.
  eexists. split; [reflexivity|].
  pose proof (scanned_directories_counts_entries Examples.file_and_run "runs" None
                _ eq_refl eq_refl eq_refl) as H.
  split; [exact (proj1 (proj2 H))|exact (proj1 (proj2 (proj2 H)))].
Defined.

(** C3. A folder whose only run has metadata that [RunInfo.load] rejects:
    the listing still returns the entry of that run, with its two first
    keys only, and counts no run.  A folder with a valid run and, listed
    last, a run with corrupt metadata: the listing raises, because the
    second loop reads [run_info_path] as the first loop left it; the valid
    run alone is listed. *)
Theorem corrupt_run_kept_or_fatal :
  load Examples.corrupt_only "runs/a" = None /\
  _list_historical_runs Examples.corrupt_only "runs" None =
    Returned {| runs := [{| last_modified := "2024-05-01T10:00:00";
                            run_folder := "runs/a";
                            summary := None |}];
                total_count := 0;
                folder := "runs";
                scanned_directories := 1;
                error := None |} /\
  ~ failed_candidates_dropped /\
  _list_historical_runs Examples.good_then_corrupt "runs" None
    = Raised JSONDecodeError /\
  (exists r, _list_historical_runs Examples.good_only "runs" None = Returned r /\
             map run_folder (summarized (runs r)) = ["runs/good"]).
Proof.
  split; [reflexivity|]. split; [reflexivity|]. split; [|split].
  - intros H.
    apply (H Examples.corrupt_only "runs" None _
             {| last_modified := "2024-05-01T10:00:00"; run_folder := "runs/a";
                summary := None |} eq_refl).
    + simpl. auto.
    + reflexivity.
  - reflexivity.
  - eexists. split; reflexivity.
Qed.

End RunsClaims.

(** * Further properties *)

(** ** Dictionaries, continued *)

Section DictMore.
Context {V : Type}.
Implicit Types (d : dict V) (k : string) (v : V).

Lemma dict_set_absent d k v :
  dict_get d k = None -> dict_set d k v = d ++ [(k, v)].
Proof.
  induction d as [|[k' v'] d IH]; simpl; [reflexivity|].
  destruct (String.eqb k' k); [discriminate|].
  intros H. now rewrite IH.
Qed.

Lemma dict_set_present_keys d k v v0 :
  dict_get d k = Some v0 -> dict_keys (dict_set d k v) = dict_keys d.
Proof.
  induction d as [|[k' v'] d IH]; simpl; [discriminate|].
  destruct (String.eqb k' k) eqn:E; simpl; [reflexivity|].
  intros H. f_equal. auto.
Qed.

Lemma dict_set_same_value d k v :
  dict_get d k = Some v -> dict_set d k v = d.
Proof.
  induction d as [|[k' v'] d IH]; simpl; [discriminate|].
  destruct (String.eqb k' k) eqn:E.
  - now intros [= ->].
  - intros H. now rewrite IH.
Qed.

Lemma dict_get_absent_keys d k :
  dict_get d k = None <-> ~ In k (dict_keys d).
Proof.
  induction d as [|[k' v'] d IH]; simpl.
  - tauto.
  - destruct (String.eqb_spec k' k) as [->|Hne].
    + split; [discriminate|]. intros H. elim H. now left.
    + rewrite IH. tauto.
Qed.

Lemma dict_set_nodup d k v : NoDup (dict_keys d) -> NoDup (dict_keys (dict_set d k v)).
Proof.
  intros Hd. destruct (dict_get d k) as [v0|] eqn:Hget.
  - now rewrite (dict_set_present_keys _ _ _ _ Hget).
  - rewrite (dict_set_absent _ _ _ Hget). unfold dict_keys.
    rewrite map_app. simpl. apply NoDup_app_remove_l with (l := []).
    simpl. apply Permutation.Permutation_NoDup with (l := k :: map fst d).
    + apply Permutation.Permutation_cons_append.
    + constructor; [|exact Hd]. now apply dict_get_absent_keys.
Qed.


End DictMore.

(** ** The job registry, continued *)

Module JobsMore.

Import Jobs JobsFacts JobsTrace.

(** *** Launching *)

(** After a launch, with or without a run folder, the response names the
    job and its folder, and a status query for the job right away answers
    ["running"], for that folder, without results and without error.  An
    empty folder name counts as none: the folder is then
    ["runs/job_<job_id>"]. *)
Theorem launch_then_status (reg : Registry) (name : option string)
    (job_id : string) (folder : option string)
    (pd : dict ProgressSnapshot) (now : string) :
  let launch :=
    _execute_pipeline_async reg name job_id folder
      {| task := Task.Pending false; progress := Some pd |} now in
  exists actual info,
    snd launch = Launched job_id actual /\
    _check_job_status (fst launch) job_id = Returned (JobStatus info) /\
    si_job_id info = job_id /\
    si_status info = "running" /\
    si_run_folder info = actual /\
    si_started_at info = now /\
    si_results info = None /\
    si_error info = None /\
    actual = match folder with
             | Some f => if String.eqb f "" then String.append "runs/job_" job_id
                         else f
             | None => String.append "runs/job_" job_id
             end.
Proof.
  simpl. unfold _check_job_status. rewrite dict_get_set_same. simpl.
  eexists. eexists. repeat split.
Qed.

(** *** No job is lost *)

Lemma cancel_keys reg job_id :
  dict_keys (fst (_cancel_job reg job_id)) = dict_keys reg.
Proof.
  unfold _cancel_job. destruct (dict_get reg job_id) as [job|] eqn:Hget; simpl;
    [|reflexivity].
  destruct (Task.done (task (runner job))); simpl; [reflexivity|].
  eapply dict_set_present_keys; eauto.
Qed.

Lemma step_keys (reg reg' : Registry) :
  step reg reg' ->
  dict_keys reg' = dict_keys reg \/
  exists job_id, dict_get reg job_id = None /\
                 dict_keys reg' = dict_keys reg ++ [job_id].
Proof.
  destruct 1 as
    [reg name id folder pd now Hfresh | reg id | reg id j tk' Hj Hadv | reg id j pd Hj].
  - right. exists id. split; [assumption|]. simpl.
    rewrite dict_set_absent by assumption. unfold dict_keys.
    now rewrite map_app.
  - left. apply cancel_keys.
  - left. eapply dict_set_present_keys; eauto.
  - left. eapply dict_set_present_keys; eauto.
Qed.

(** A step never removes or reorders jobs: either the job identifiers are
    as before, or the step is a launch and its new identifier comes last. *)
Theorem step_keeps_jobs (reg reg' : Registry) :
  step reg reg' ->
  dict_keys reg' = dict_keys reg \/
  exists job_id, dict_get reg job_id = None /\
                 dict_keys reg' = dict_keys reg ++ [job_id].
Proof. exact (step_keys reg reg'). Qed.

Lemma step_keeps_jobs_witness :
  dict_keys Examples.cancel_requested = dict_keys Examples.launched \/
  exists job_id, dict_get Examples.launched job_id = None /\
                 dict_keys Examples.cancel_requested
                 = dict_keys Examples.launched ++ [job_id].
Proof.
  apply (step_keeps_jobs Examples.launched Examples.cancel_requested).
  apply step_cancel.
Defined.

(** *** list_jobs *)

Lemma job_summary_returns job_id job :
  task (runner job) <> Task.Cancelled ->
  job_summary job_id job = Returned (summary_of (job_id, job)).
Proof.
  unfold job_summary, summary_of. simpl.
  destruct (task (runner job)); simpl; intros H; try reflexivity.
  now elim H.
Qed.

Lemma job_summary_raises job_id job :
  task (runner job) = Task.Cancelled ->
  job_summary job_id job = Raised CancelledError.
Proof.
  unfold job_summary. now intros ->.
Qed.

Lemma jobs_info_returns items :
  Forall (fun kv => ~ task_cancelled (snd kv)) items ->
  jobs_info items = Returned (map summary_of items).
Proof.
  induction 1 as [|[id job] items Hjob Hall IH]; simpl; [reflexivity|].
  rewrite (job_summary_returns id job Hjob). cbn [bind]. rewrite IH. reflexivity.
Qed.

Lemma jobs_info_raises items :
  Exists (fun kv => task_cancelled (snd kv)) items ->
  jobs_info items = Raised CancelledError.
Proof.
  induction items as [|[id job] items IH]; intros Hex.
  - inversion Hex.
  - simpl.
    assert (Hdec : task (runner job) = Task.Cancelled \/
                   task (runner job) <> Task.Cancelled)
      by (destruct (task (runner job)); auto; right; discriminate).
    destruct Hdec as [Hc|Hc].
    + now rewrite (job_summary_raises id job Hc).
    + rewrite (job_summary_returns id job Hc). cbn [bind].
      inversion Hex as [? ? H|? ? H]; subst; [contradiction|].
      now rewrite (IH H).
Qed.


Lemma cancelled_or_not (reg : Registry) :
  Exists (fun kv => task_cancelled (snd kv)) reg \/
  Forall (fun kv => ~ task_cancelled (snd kv)) reg.
Proof.
  induction reg as [|[id job] reg IH]; [right; constructor|].
  unfold task_cancelled in *. simpl.
  destruct (task (runner job)) eqn:Ht;
    try (left; constructor; simpl; assumption).
  all: destruct IH as [IH|IH]; [left; now apply Exists_cons_tl|right].
  all: constructor; [simpl; rewrite Ht; discriminate|assumption].
Qed.

Lemma list_jobs_returns (reg : Registry) :
  Forall (fun kv => ~ task_cancelled (snd kv)) reg ->
  _list_jobs reg = Returned (JobList (map summary_of reg) (List.length reg)).
Proof.
  intros Hall. unfold _list_jobs. destruct reg as [|kv reg]; [reflexivity|].
  rewrite (jobs_info_returns _ Hall). cbn [bind]. now rewrite length_map.
Qed.

Lemma list_jobs_raises (reg : Registry) :
  Exists (fun kv => task_cancelled (snd kv)) reg ->
  _list_jobs reg = Raised CancelledError.
Proof.
  intros Hex. unfold _list_jobs. destruct reg as [|kv reg]; [inversion Hex|].
  now rewrite (jobs_info_raises _ Hex).
Qed.

(** [_list_jobs] raises exactly when the task of some job ended cancelled,
    and then with [CancelledError]; no other exception escapes it. *)
Theorem list_jobs_raises_iff_cancelled (reg : Registry) :
  (forall e, _list_jobs reg = Raised e -> e = CancelledError) /\
  (_list_jobs reg = Raised CancelledError <->
   Exists (fun kv => task_cancelled (snd kv)) reg).
Proof.
  pose proof (cancelled_or_not reg) as Hdec.
  unfold _list_jobs. destruct reg as [|kv reg].
  - split; [discriminate|]. split; [discriminate|]. intros H. inversion H.
  - destruct Hdec as [Hex|Hall].
    + rewrite (jobs_info_raises _ Hex). cbn [bind].
      split; [now intros e [= <-]|]. tauto.
    + rewrite (jobs_info_returns _ Hall). cbn [bind].
      split; [discriminate|]. split; [discriminate|].
      intros Hex. exfalso. rewrite Forall_forall in Hall.
      rewrite Exists_exists in Hex. destruct Hex as (x & Hin & Hx).
      exact (Hall x Hin Hx).
Qed.

Lemma list_jobs_raises_iff_cancelled_witness :
  _list_jobs Examples.cancelled_for_good = Raised CancelledError.
Proof.
  apply (proj2 (list_jobs_raises_iff_cancelled Examples.cancelled_for_good)).
  constructor. reflexivity.
Defined.

(** When no task ended cancelled, [_list_jobs] shows every job of the
    registry once, in the order of their launches, with the stored status,
    and [has_error] set exactly for the tasks that raised; [total_count] is
    the number of jobs. *)
Theorem list_jobs_lists_registry (reg : Registry) :
  Forall (fun kv => ~ task_cancelled (snd kv)) reg ->
  _list_jobs reg = Returned (JobList (map summary_of reg) (List.length reg)) /\
  map js_job_id (map summary_of reg) = dict_keys reg.
Proof.
  intros Hall. split.
  - now apply list_jobs_returns.
  - unfold dict_keys. rewrite map_map. reflexivity.
Qed.

Lemma list_jobs_lists_registry_witness :
  _list_jobs Examples.errored =
    Returned (JobList (map summary_of Examples.errored) 1) /\
  map js_job_id (map summary_of Examples.errored) = ["job-1"].
Proof.
  apply (list_jobs_lists_registry Examples.errored).
  repeat constructor. discriminate.
Defined.

(** Whatever a response of [_list_jobs] is, its [total_count] is the number
    of jobs in the registry and the number of entries listed. *)
Lemma list_jobs_count reg infos k :
  _list_jobs reg = Returned (JobList infos k) ->
  k = List.length reg /\ List.length infos = List.length reg.
Proof.
  intros H. destruct (cancelled_or_not reg) as [Hex|Hall].
  - rewrite (list_jobs_raises reg Hex) in H. discriminate.
  - rewrite (list_jobs_returns reg Hall) in H.
    injection H as <- <-. now rewrite length_map.
Qed.

Lemma launched_length n reg : launched n reg -> List.length reg = n.
Proof.
  induction 1 as [|n reg name id folder pd now H IH Hfresh|n reg id H IH
                  |n reg id job tk' H IH Hget Hadv|n reg id job pd H IH Hget].
  - reflexivity.
  - simpl. rewrite dict_set_absent by assumption.
    rewrite length_app. simpl. lia.
  - rewrite <- IH. rewrite <- !(length_map fst).
    exact (f_equal (@List.length string) (cancel_keys reg id)).
  - rewrite <- IH. eapply dict_set_length_present; eauto.
  - rewrite <- IH. eapply dict_set_length_present; eauto.
Qed.

(** After [n] launches, and whatever else happened, the registry holds [n]
    jobs and every response of [_list_jobs] counts [n]: no job is ever
    evicted. *)
Theorem list_jobs_counts_launches (n : nat) (reg : Registry) :
  launched n reg ->
  List.length reg = n /\
  forall infos k, _list_jobs reg = Returned (JobList infos k) ->
                  k = n /\ List.length infos = n.
Proof.
  intros H. pose proof (launched_length n reg H) as Hlen.
  split; [assumption|]. intros infos k Hl.
  destruct (list_jobs_count _ _ _ Hl). lia.
Qed.

Lemma list_jobs_counts_launches_witness :
  List.length Examples.cancel_requested = 1 /\
  forall infos k,
    _list_jobs Examples.cancel_requested = Returned (JobList infos k) ->
    k = 1 /\ List.length infos = 1.
Proof.
  apply (list_jobs_counts_launches 1 Examples.cancel_requested).
  apply launched_cancel.
  exact (launched_launch 0 job_registry_initial (Some "demo") "job-1" None
           (Some []) "2024-05-01T10:00:00+00:00" launched_initial eq_refl).
Defined.

(** *** cancel_job *)

(** Cancelling a job whose task is not done answers with the job and
    ["cancelled"]; the job is then stored as ["cancelled"] with a task that
    was asked to cancel, and keeps its folder, start time and name; no other
    job changes and the order of the jobs is kept.  The task is still not
    done, so a status query right after still answers ["running"]. *)
Theorem cancel_pending_job (reg : Registry) (job_id : string) (job : JobInfo) :
  dict_get reg job_id = Some job ->
  Task.done (task (runner job)) = false ->
  let reg' := fst (_cancel_job reg job_id) in
  snd (_cancel_job reg job_id) = CancelledJob "cancelled" job_id /\
  dict_get reg' job_id =
    Some (set_status (set_task job (Task.Pending true)) "cancelled") /\
  (forall other, other <> job_id -> dict_get reg' other = dict_get reg other) /\
  dict_keys reg' = dict_keys reg /\
  (progress (runner job) <> None -> checked_status reg' job_id = Some "running").
Proof.
  intros Hget Hdone. pose proof (cancel_keys reg job_id) as Hkeys.
  unfold _cancel_job in *. rewrite Hget, Hdone in *. simpl in *.
  destruct (task (runner job)) eqn:Ht; try discriminate. simpl.
  repeat split.
  - apply dict_get_set_same.
  - intros other Hne. apply dict_get_set_other. congruence.
  - assumption.
  - intros Hpd. unfold checked_status, _check_job_status.
    rewrite dict_get_set_same. simpl.
    destruct (progress (runner job)); [reflexivity|congruence].
Qed.

Lemma cancel_pending_job_witness :
  snd (_cancel_job Examples.launched "job-1") = CancelledJob "cancelled" "job-1" /\
  checked_status (fst (_cancel_job Examples.launched "job-1")) "job-1"
    = Some "running".
Proof.
  pose proof (cancel_pending_job Examples.launched "job-1" Examples.launched_job
                eq_refl eq_refl) as H.
  split; [exact (proj1 H)|].
  apply (proj2 (proj2 (proj2 (proj2 H)))). discriminate.
Defined.



(** *** Tasks that are done *)

Lemma job_step_done job job' :
  job_step job job' -> Task.done (task (runner job)) = true ->
  task (runner job') = task (runner job) /\ status job' = status job /\
  run_folder job' = run_folder job /\ started_at job' = started_at job /\
  pipeline_name job' = pipeline_name job.
Proof.
  destruct 1 as [job|job Hd|job tk' Hadv|job pd]; simpl; intros Hdone; auto.
  - congruence.
  - apply advance_from_pending in Hadv. congruence.
Qed.

Lemma steps_done_job (reg reg' : Registry) (job_id : string) (job : JobInfo) :
  steps reg reg' ->
  dict_get reg job_id = Some job ->
  Task.done (task (runner job)) = true ->
  exists job', dict_get reg' job_id = Some job' /\
    task (runner job') = task (runner job) /\ status job' = status job /\
    run_folder job' = run_folder job /\ started_at job' = started_at job /\
    pipeline_name job' = pipeline_name job.
Proof.
  intros Hsteps. revert job.
  induction Hsteps as [reg|reg reg' reg'' Hsteps IH Hstep]; intros job Hget Hdone.
  - exists job. repeat split; auto.
  - destruct (IH job Hget Hdone) as (job1 & Hget1 & Ht & Hs & Hf & Ha & Hn).
    destruct (step_job _ _ _ _ Hstep Hget1) as (job2 & Hget2 & Hjs).
    assert (Hdone1 : Task.done (task (runner job1)) = true) by congruence.
    destruct (job_step_done _ _ Hjs Hdone1) as (Ht2 & Hs2 & Hf2 & Ha2 & Hn2).
    exists job2. repeat split; congruence.
Qed.

(** Once the task of a job is done, nothing that happens later changes the
    task, the stored status, the folder, the start time or the name of the
    job: only its progress tracker may still change. *)
Theorem done_job_is_frozen (reg reg' : Registry) (job_id : string) (job : JobInfo) :
  steps reg reg' ->
  dict_get reg job_id = Some job ->
  Task.done (task (runner job)) = true ->
  exists job', dict_get reg' job_id = Some job' /\
    task (runner job') = task (runner job) /\ status job' = status job /\
    run_folder job' = run_folder job /\ started_at job' = started_at job /\
    pipeline_name job' = pipeline_name job.
Proof. exact (steps_done_job reg reg' job_id job). Qed.

Lemma done_job_is_frozen_witness :
  exists job', dict_get (fst (_cancel_job Examples.errored "job-1")) "job-1"
               = Some job' /\
    task (runner job') = Task.Failed "boom" /\ status job' = "running" /\
    run_folder job' = "runs/job_job-1" /\
    started_at job' = "2024-05-01T10:00:00+00:00" /\
    pipeline_name job' = "demo".
Proof.
  apply (done_job_is_frozen Examples.errored
           (fst (_cancel_job Examples.errored "job-1")) "job-1"
           (set_task Examples.launched_job (Task.Failed "boom"))).
  - apply (steps_next _ Examples.errored); [apply steps_refl|apply step_cancel].
  - reflexivity.
  - reflexivity.
Defined.

(** What [_check_job_status] answers about a job depends on its progress
    tracker only through the ["progress"] key: with the same task, two
    registries give the same status, error and results. *)
Lemma check_job_status_same_task reg reg' job_id job job' info info' :
  dict_get reg job_id = Some job -> dict_get reg' job_id = Some job' ->
  task (runner job') = task (runner job) ->
  _check_job_status reg job_id = Returned (JobStatus info) ->
  _check_job_status reg' job_id = Returned (JobStatus info') ->
  si_status info' = si_status info /\ si_error info' = si_error info /\
  si_results info' = si_results info.
Proof.
  intros Hget Hget' Ht. unfold _check_job_status. rewrite Hget, Hget', Ht.
  destruct (progress (runner job)); [|discriminate].
  destruct (progress (runner job')); [|discriminate].
  destruct (task (runner job)); simpl; try discriminate;
    intros [= <-] [= <-]; simpl; auto.
Qed.

(** A status query that answered ["completed"] keeps answering the same
    status, error and results after any further steps, whenever it
    answers. *)
Theorem completed_answer_is_stable (reg reg' : Registry) (job_id : string)
    (info info' : StatusInfo) :
  steps reg reg' ->
  _check_job_status reg job_id = Returned (JobStatus info) ->
  si_status info = "completed" ->
  _check_job_status reg' job_id = Returned (JobStatus info') ->
  si_status info' = "completed" /\ si_error info' = si_error info /\
  si_results info' = si_results info.
Proof.
  intros Hsteps Hc Hst Hc'.
  destruct (dict_get reg job_id) as [job|] eqn:Hget.
  2:{ unfold _check_job_status in Hc. rewrite Hget in Hc. discriminate. }
  assert (Hdone : Task.done (task (runner job)) = true).
  { clear - Hc Hst Hget.
    unfold _check_job_status in Hc. rewrite Hget in Hc.
    destruct (progress (runner job)); [|discriminate].
    destruct (task (runner job)); simpl in *; try reflexivity.
    injection Hc as <-. discriminate. }
  destruct (steps_done_job _ _ _ _ Hsteps Hget Hdone) as (job' & Hget' & Ht & _).
  destruct (check_job_status_same_task _ _ _ _ _ _ _ Hget Hget' Ht Hc Hc')
    as (H1 & H2 & H3).
  repeat split; congruence.
Qed.

Lemma completed_answer_is_stable_witness :
  exists info',
    _check_job_status (fst (_cancel_job Examples.finished "job-1")) "job-1"
      = Returned (JobStatus info') /\
    si_status info' = "completed" /\ si_error info' = None /\
    si_results info' = Some (render_results Examples.some_result).
Proof.
  eexists. split; [reflexivity|].
  refine (completed_answer_is_stable Examples.finished
            (fst (_cancel_job Examples.finished "job-1")) "job-1" _ _
            _ eq_refl eq_refl eq_refl).
  apply (steps_next _ Examples.finished); [apply steps_refl|apply step_cancel].
Defined.

(** *** Progress and results in the answer *)



End JobsMore.

(** ** The status of a job, stored and reported *)

Module JobsLifecycle.

Import Jobs JobsFacts JobsTrace JobsMore.

(** A property of jobs that holds at launch and that no step breaks holds
    for every job of a registry that can be reached. *)
Lemma reachable_jobs (P : JobInfo -> Prop) :
  (forall job, status job = "running" ->
               task (runner job) = Task.Pending false -> P job) ->
  (forall job job', job_step job job' -> P job -> P job') ->
  forall reg, reachable reg ->
  forall job_id job, dict_get reg job_id = Some job -> P job.
Proof.
  intros Hnew Hstep reg. induction 1 as [|reg reg' Hreach IH Hs];
    intros job_id job Hget.
  - discriminate.
  - destruct (dict_get reg job_id) as [job0|] eqn:H0.
    + destruct (step_job _ _ _ _ Hs H0) as (job' & Hget' & Hjs).
      rewrite Hget in Hget'. injection Hget' as <-.
      eapply Hstep; eauto.
    + destruct Hs as
        [reg name id folder pd now Hfresh | reg id | reg id j tk' Hj Hadv | reg id j pd Hj].
      * simpl in Hget. destruct (string_dec id job_id) as [->|Hne].
        -- rewrite dict_get_set_same in Hget. injection Hget as <-.
           now apply Hnew.
        -- rewrite dict_get_set_other in Hget by assumption. congruence.
      * unfold _cancel_job in Hget.
        destruct (dict_get reg id) as [j|] eqn:Hj; simpl in Hget; [|congruence].
        destruct (Task.done (task (runner j))); simpl in Hget; [congruence|].
        destruct (string_dec id job_id) as [->|Hne]; [congruence|].
        rewrite dict_get_set_other in Hget by assumption. congruence.
      * destruct (string_dec id job_id) as [->|Hne]; [congruence|].
        rewrite dict_get_set_other in Hget by assumption. congruence.
      * destruct (string_dec id job_id) as [->|Hne]; [congruence|].
        rewrite dict_get_set_other in Hget by assumption. congruence.
Qed.

Lemma reachable_cancel_respected reg :
  reachable reg ->
  forall job_id job, dict_get reg job_id = Some job -> cancel_respected job.
Proof.
  apply (reachable_jobs cancel_respected).
  - intros job Hst _ Hc. congruence.
  - unfold cancel_respected.
    intros job job' [j|j Hd|j tk' Hadv|j pd]; simpl; auto.
    intros H Hst. specialize (H Hst).
    inversion Hadv as [r Hp|e Hp|e Hp|b Hp]; auto;
      rewrite <- Hp in H; destruct H; discriminate.
Qed.

(** What [_list_jobs] shows for a job, when it answers, is the stored
    status. *)
Lemma find_summary reg job_id :
  find (fun j => String.eqb (js_job_id j) job_id) (map summary_of reg)
  = option_map (fun job => summary_of (job_id, job)) (dict_get reg job_id).
Proof.
  induction reg as [|[id job] reg IH]; simpl; [reflexivity|].
  destruct (String.eqb_spec id job_id) as [->|Hne]; [reflexivity|exact IH].
Qed.

Lemma listed_status_stored reg job_id s :
  listed_status reg job_id = Some s -> stored_status reg job_id = Some s.
Proof.
  unfold listed_status, stored_status.
  destruct (cancelled_or_not reg) as [Hex|Hall].
  - now rewrite (list_jobs_raises reg Hex).
  - rewrite (list_jobs_returns reg Hall), find_summary.
    destruct (dict_get reg job_id); simpl; auto.
Qed.

Lemma listed_status_answer reg job_id job infos k :
  _list_jobs reg = Returned (JobList infos k) ->
  dict_get reg job_id = Some job ->
  listed_status reg job_id = Some (status job).
Proof.
  intros Hl Hget. unfold listed_status.
  destruct (cancelled_or_not reg) as [Hex|Hall].
  - rewrite (list_jobs_raises reg Hex) in Hl. discriminate.
  - rewrite (list_jobs_returns reg Hall), find_summary, Hget. reflexivity.
Qed.

(** A status answer of ["completed"] is for a task that ended with a result
    or with an exception. *)
Lemma checked_completed reg job_id :
  checked_status reg job_id = Some "completed" ->
  exists job, dict_get reg job_id = Some job /\
    ((exists r, task (runner job) = Task.Finished r) \/
     (exists e, task (runner job) = Task.Failed e)).
Proof.
  unfold checked_status, _check_job_status.
  destruct (dict_get reg job_id) as [job|]; [|discriminate].
  destruct (progress (runner job)); [|discriminate].
  destruct (task (runner job)) as [b|r|e|e|] eqn:Ht; simpl; try discriminate;
    intros _; exists job; (split; [reflexivity|]).
  - left. now exists r.
  - right. now exists e.
Qed.

(** C1. In every registry that can be reached, the status that
    [_check_job_status] answers for a job and the status that [_list_jobs]
    shows for it never are ["completed"] and ["cancelled"]: a job stored as
    ["cancelled"] has a task that was asked to cancel or ended cancelled,
    and [_check_job_status] answers ["completed"] only for a task that
    ended with a result or an exception, which belongs to a job stored as
    ["running"]. *)
Theorem reports_never_disagree (reg : Registry) (job_id : string) :
  reachable reg ->
  reports_agree reg job_id /\
  (checked_status reg job_id = Some "completed" ->
   stored_status reg job_id = Some "running") /\
  (stored_status reg job_id = Some "cancelled" ->
   checked_status reg job_id <> Some "completed").
Proof.
  intros Hreach.
  assert (Hrun : checked_status reg job_id = Some "completed" ->
                 stored_status reg job_id = Some "running").
  { intros Hc. unfold stored_status.
    destruct (checked_completed _ _ Hc) as (job & Hget & [(r & Ht)|(e & Ht)]);
      rewrite Hget; simpl; f_equal;
      pose proof (reachable_cancel_respected reg Hreach job_id job Hget) as Hresp;
      destruct (reachable_job_ok reg Hreach job_id job Hget) as [Hs|Hs]; auto;
      destruct (Hresp Hs) as [H|H]; congruence. }
  split; [|split].
  - intros [Hc Hl]. apply listed_status_stored in Hl.
    rewrite (Hrun Hc) in Hl. discriminate.
  - exact Hrun.
  - intros Hst Hc. rewrite (Hrun Hc) in Hst. discriminate.
Qed.

Lemma reports_never_disagree_witness :
  reports_agree Examples.cancelled_for_good "job-1" /\
  (checked_status Examples.cancelled_for_good "job-1" = Some "completed" ->
   stored_status Examples.cancelled_for_good "job-1" = Some "running") /\
  (stored_status Examples.cancelled_for_good "job-1" = Some "cancelled" ->
   checked_status Examples.cancelled_for_good "job-1" <> Some "completed").
Proof.
  apply (reports_never_disagree Examples.cancelled_for_good "job-1").
  apply JobsClaims.reachable_cancelled_for_good.
Defined.

(** C2, amended. The stored status of a job is one of the declared
    ["running"], ["completed"], ["cancelled"]; there is no ["failed"].  It
    is ["running"] at creation; one step leaves it as it is or takes it from
    ["running"] to a terminal status; a terminal status stays as it is,
    whatever happens.  [_check_job_status], whenever it answers, answers
    ["running"] for a task that is not done and ["completed"] for one that
    is.  A job whose task raised is never reported as ["failed"]: its stored
    status is not ["failed"]; [_check_job_status], whenever it answers for
    it, answers ["completed"] with [str] of the exception in ["error"], and
    it does answer when the job has a progress tracker and the truth value
    of the exception is true; [_list_jobs], whenever it answers, shows the
    stored status. *)
Theorem status_lifecycle :
  (forall reg, reachable reg ->
     forall job_id job, dict_get reg job_id = Some job ->
       In (status job) declared_statuses) /\
  (forall reg name job_id folder async_map now,
     stored_status
       (fst (_execute_pipeline_async reg name job_id folder async_map now))
       job_id = Some "running") /\
  (forall reg reg' job_id job,
     reachable reg -> step reg reg' -> dict_get reg job_id = Some job ->
     exists job', dict_get reg' job_id = Some job' /\
       (status job' = status job \/
        (status job = "running" /\ In (status job') terminal_statuses))) /\
  (forall reg reg' job_id job,
     reachable reg -> steps reg reg' -> dict_get reg job_id = Some job ->
     In (status job) terminal_statuses ->
     exists job', dict_get reg' job_id = Some job' /\ status job' = status job) /\
  (forall reg job_id job info,
     dict_get reg job_id = Some job ->
     _check_job_status reg job_id = Returned (JobStatus info) ->
     si_status info =
       if Task.done (task (runner job)) then "completed" else "running") /\
  (forall reg job_id job e,
     reachable reg -> dict_get reg job_id = Some job -> errored_with job e ->
     status job <> "failed" /\
     (forall info, _check_job_status reg job_id = Returned (JobStatus info) ->
        si_status info = "completed" /\ si_error info = Some e) /\
     (forall pd, progress (runner job) = Some pd ->
        task (runner job) = Task.Failed e ->
        exists info, _check_job_status reg job_id = Returned (JobStatus info)) /\
     (forall infos k, _list_jobs reg = Returned (JobList infos k) ->
        listed_status reg job_id = Some (status job))).
Proof.
  split; [|split; [|split; [|split; [|split]]]].
  - intros reg Hreach job_id job Hget.
    destruct (reachable_job_ok reg Hreach _ _ Hget) as [-> | ->]; simpl; auto.
  - intros. unfold stored_status. simpl. now rewrite dict_get_set_same.
  - intros reg reg' job_id job Hreach Hstep Hget.
    destruct (step_job _ _ _ _ Hstep Hget) as (job' & Hget' & Hjs).
    exists job'. split; [assumption|].
    destruct Hjs as [job|job Hd|job tk' Hadv|job pd]; simpl; auto.
    destruct (reachable_job_ok reg Hreach _ _ Hget) as [Hs|Hs]; rewrite Hs; auto.
  - intros reg reg' job_id job Hreach Hsteps Hget Hst.
    assert (Hc : status job = "cancelled").
    { destruct (reachable_job_ok reg Hreach _ _ Hget) as [Hs|Hs]; [|assumption].
      rewrite Hs in Hst. simpl in Hst. destruct Hst as [H|[H|[]]]; discriminate. }
    destruct (JobsClaims.steps_job reg reg' Hsteps job_id job Hget Hc)
      as (job' & Hget' & Hs').
    exists job'. split; [assumption|congruence].
  - intros reg job_id job info Hget. unfold _check_job_status. rewrite Hget.
    destruct (progress (runner job)); [|discriminate].
    destruct (task (runner job)); simpl; try discriminate;
      intros [= <-]; reflexivity.
  - intros reg job_id job e Hreach Hget Herr. split; [|split; [|split]].
    + destruct (reachable_job_ok reg Hreach _ _ Hget) as [-> | ->]; discriminate.
    + intros info. unfold _check_job_status. rewrite Hget.
      destruct (progress (runner job)); [|discriminate].
      destruct Herr as [-> | ->]; simpl; [|discriminate].
      intros [= <-]. simpl. auto.
    + intros pd Hpd Ht. unfold _check_job_status. rewrite Hget, Hpd, Ht.
      simpl. eexists. reflexivity.
    + intros infos k Hl. exact (listed_status_answer _ _ _ _ _ Hl Hget).
Qed.

Lemma status_lifecycle_witness :
  (exists job', dict_get Examples.cancelled_for_good "job-1" = Some job' /\
                status job' = status Examples.cancel_requested_job) /\
  (exists info, _check_job_status Examples.errored "job-1"
                = Returned (JobStatus info)).
Proof.
  split.
  - refine (proj1 (proj2 (proj2 (proj2 status_lifecycle)))
              Examples.cancel_requested Examples.cancelled_for_good "job-1"
              Examples.cancel_requested_job
              JobsClaims.reachable_cancel_requested _ eq_refl _).
    + apply (steps_next _ Examples.cancel_requested); [apply steps_refl|].
      apply (step_task Examples.cancel_requested "job-1"
               Examples.cancel_requested_job).
      * reflexivity.
      * apply Task.advance_cancelled.
    + simpl. auto.
  - exact (proj1 (proj2 (proj2
              (proj2 (proj2 (proj2 (proj2 (proj2 status_lifecycle))))
                 Examples.errored "job-1"
                 (set_task Examples.launched_job (Task.Failed "boom")) "boom"
                 JobsClaims.reachable_errored eq_refl (or_introl eq_refl))))
              [] eq_refl eq_refl).
Defined.

End JobsLifecycle.

(** ** Inspecting the stores of one run, continued *)

Module DiskMore.

Import Disk DiskFacts DiskTerms.

Lemma dict_get_in {V} (d : dict V) k v : dict_get d k = Some v -> In (k, v) d.
Proof.
  induction d as [|[k' v'] d IH]; simpl; [discriminate|].
  destruct (String.eqb_spec k' k) as [->|Hne].
  - intros [= ->]. now left.
  - intros H. right. auto.
Qed.

Lemma progress_loop_step store name rest outs ac :
  progress_loop store (name :: rest) outs ac =
  pn <- inspect_name store name ;;
  progress_loop store rest (dict_set outs name (entry pn))
    (ac && is_one (fst pn)).
Proof.
  cbn [progress_loop]. unfold inspect_name.
  destruct (store_item store name); reflexivity.
Qed.

(** *** When the inspection returns *)

Lemma progress_loop_inspectable store names :
  forall outs ac r,
    progress_loop store names outs ac = Returned r ->
    forall name, In name names -> inspectable store name.
Proof.
  induction names as [|n rest IH]; intros outs ac r Hr name Hin; [contradiction|].
  rewrite progress_loop_step in Hr.
  destruct (inspect_name store n) as [pn|] eqn:Hpn; cbn [bind] in Hr; [|discriminate].
  destruct Hin as [<-|Hin]; [now exists pn|eauto].
Qed.

Lemma progress_loop_total store names :
  (forall name, In name names -> inspectable store name) ->
  forall outs ac, exists r, progress_loop store names outs ac = Returned r.
Proof.
  induction names as [|n rest IH]; intros Hall outs ac; [eexists; reflexivity|].
  rewrite progress_loop_step.
  destruct (Hall n (or_introl eq_refl)) as (pn & Hpn). rewrite Hpn. cbn [bind].
  apply IH. intros name Hin. apply Hall. now right.
Qed.

(** [_progress_info_from_disk] returns exactly when every output name of
    the run has a store and that store can be inspected: one output that
    cannot leaves no result for the others. *)
Theorem progress_info_returns_iff (run_info : RunInfo) :
  (exists r, _progress_info_from_disk run_info = Returned r) <->
  (forall name, In name (all_output_names run_info) ->
     inspectable (init_store run_info) name).
Proof.
  unfold _progress_info_from_disk. split.
  - intros (r & Hr). eapply progress_loop_inspectable; eauto.
  - intros Hall. now apply progress_loop_total.
Qed.

Lemma progress_info_returns_iff_witness :
  exists r, _progress_info_from_disk Examples.mixed_run = Returned r.
Proof.
  apply (proj2 (progress_info_returns_iff Examples.mixed_run)).
  intros name [<-|[<-|[<-|[]]]]; eexists; reflexivity.
Defined.




(** *** What the inspection returns *)

Lemma from_store_set store outs name pn :
  from_store store outs -> inspect_name store name = Returned pn ->
  from_store store (dict_set outs name (entry pn)).
Proof.
  intros Hfrom Hpn k o. destruct (string_dec name k) as [<-|Hne].
  - rewrite dict_get_set_same. intros [= <-]. eauto.
  - rewrite dict_get_set_other by assumption. apply Hfrom.
Qed.

Lemma forallb_complete_in outs name o :
  forallb complete_item outs = true -> dict_get outs name = Some o ->
  op_complete o = true.
Proof.
  intros Hall Hget. apply dict_get_in in Hget.
  rewrite forallb_forall in Hall. exact (Hall _ Hget).
Qed.

Lemma progress_loop_conjunction store names :
  forall outs ac outs' ac',
    progress_loop store names outs ac = Returned (outs', ac') ->
    from_store store outs ->
    ac = forallb complete_item outs ->
    from_store store outs' /\ ac' = forallb complete_item outs'.
Proof.
  induction names as [|n rest IH]; intros outs ac outs' ac' Hr Hfrom Hac.
  - simpl in Hr. injection Hr as <- <-. auto.
  - rewrite progress_loop_step in Hr.
    destruct (inspect_name store n) as [pn|] eqn:Hpn; cbn [bind] in Hr; [|discriminate].
    apply (IH _ _ _ _ Hr); [now apply from_store_set|].
    destruct (dict_get outs n) as [o|] eqn:Hget.
    + destruct (Hfrom n o Hget) as (pn' & Hpn' & ->).
      rewrite Hpn in Hpn'. injection Hpn' as <-.
      rewrite (dict_set_same_value _ _ _ Hget). rewrite Hac.
      destruct (forallb complete_item outs) eqn:Hall; [|reflexivity].
      simpl. exact (forallb_complete_in _ _ _ Hall Hget).
    + rewrite (dict_set_absent _ _ _ Hget), forallb_app, Hac. simpl.
      now rewrite andb_true_r.
Qed.

Lemma progress_info_flag run_info outs ac :
  _progress_info_from_disk run_info = Returned (outs, ac) ->
  ac = forallb complete_item outs.
Proof.
  unfold _progress_info_from_disk. intros Hr.
  refine (proj2 (progress_loop_conjunction _ _ _ _ _ _ Hr _ eq_refl)).
  intros ? ? H. discriminate H.
Qed.

(** The [all_complete] flag that [_progress_info_from_disk] returns is the
    conjunction of the [complete] flags of the returned outputs, every
    returned output is the entry of its name in the store, and a run
    without outputs is complete. *)
Theorem all_complete_is_conjunction (run_info : RunInfo)
    (outs : dict OutputProgress) (ac : bool) :
  _progress_info_from_disk run_info = Returned (outs, ac) ->
  ac = forallb complete_item outs /\
  from_store (init_store run_info) outs /\
  (all_output_names run_info = [] -> outs = [] /\ ac = true).
Proof.
  unfold _progress_info_from_disk. intros Hr.
  destruct (progress_loop_conjunction _ _ _ _ _ _ Hr) as [Hfrom Hac];
    [intros ? ? H; discriminate H|reflexivity|].
  repeat split; try assumption.
  - rewrite H in Hr. simpl in Hr. now injection Hr as <- _.
  - rewrite H in Hr. simpl in Hr. now injection Hr as _ <-.
Qed.

Lemma all_complete_is_conjunction_witness :
  exists outs,
    _progress_info_from_disk MoreExamples.complete_run = Returned (outs, true) /\
    true = forallb complete_item outs.
Proof.
  eexists. split; [reflexivity|].
  exact (proj1 (all_complete_is_conjunction MoreExamples.complete_run _ true eq_refl)).
Defined.

Lemma progress_loop_keys store names :
  forall outs ac outs' ac',
    progress_loop store names outs ac = Returned (outs', ac') ->
    NoDup names ->
    (forall name, In name names -> dict_get outs name = None) ->
    dict_keys outs' = dict_keys outs ++ names.
Proof.
  induction names as [|n rest IH]; intros outs ac outs' ac' Hr Hnd Hfresh.
  - simpl in Hr. injection Hr as <- _. now rewrite app_nil_r.
  - rewrite progress_loop_step in Hr.
    destruct (inspect_name store n) as [pn|] eqn:Hpn; cbn [bind] in Hr; [|discriminate].
    inversion Hnd as [|? ? Hnotin Hnd']. subst.
    rewrite (IH _ _ _ _ Hr Hnd').
    + rewrite dict_set_absent by (apply Hfresh; now left).
      unfold dict_keys. rewrite map_app, <- app_assoc. reflexivity.
    + intros name Hin. rewrite dict_get_set_other.
      * apply Hfresh. now right.
      * intros ->. contradiction.
Qed.

(** For output names that are pairwise distinct, the returned dictionary
    has exactly these names as keys, in their order: one entry per
    output. *)
Theorem one_entry_per_output (run_info : RunInfo)
    (outs : dict OutputProgress) (ac : bool) :
  NoDup (all_output_names run_info) ->
  _progress_info_from_disk run_info = Returned (outs, ac) ->
  dict_keys outs = all_output_names run_info /\
  List.length outs = List.length (all_output_names run_info).
Proof.
  unfold _progress_info_from_disk. intros Hnd Hr.
  pose proof (progress_loop_keys _ _ _ _ _ _ Hr Hnd (fun _ _ => eq_refl)) as Hk.
  simpl in Hk. split; [assumption|].
  rewrite <- Hk. unfold dict_keys. now rewrite length_map.
Qed.

Lemma one_entry_per_output_witness :
  exists outs ac,
    _progress_info_from_disk Examples.mixed_run = Returned (outs, ac) /\
    dict_keys outs = ["y"; "total"; "report"] /\ List.length outs = 3.
Proof.
  eexists. eexists. split; [reflexivity|].
  refine (one_entry_per_output Examples.mixed_run _ _ _ eq_refl).
  repeat constructor; simpl; intuition discriminate.
Defined.

(** A run with an array output whose shape is not resolved is never
    reported complete: the progress of that output is ["unknown"], its
    [complete] flag is false and so is [all_complete]. *)
Theorem unresolved_output_blocks_completion (run_info : RunInfo) (name : string)
    (fa : FileArray) (outs : dict OutputProgress) (ac : bool) :
  In name (all_output_names run_info) ->
  dict_get (init_store run_info) name = Some (ArrayData fa) ->
  shape_is_resolved (shape fa) = false ->
  _progress_info_from_disk run_info = Returned (outs, ac) ->
  dict_get outs name =
    Some {| op_progress := Unknown; op_complete := false;
            op_bytes := sum_sizes (folder_files fa) |} /\
  ac = false.
Proof.
  intros Hin Hget Hres Hr.
  destruct (progress_info_lookup _ _ _ _ _ Hr Hin Hget) as (pn & Hpn & Hout).
  unfold inspect in Hpn. rewrite Hres in Hpn. cbn [bind] in Hpn.
  injection Hpn as <-. split; [exact Hout|].
  rewrite (progress_info_flag _ _ _ Hr).
  destruct (forallb complete_item outs) eqn:Hall; [|reflexivity].
  pose proof (forallb_complete_in _ _ _ Hall Hout) as H. discriminate H.
Qed.

Lemma unresolved_output_blocks_completion_witness :
  exists outs,
    _progress_info_from_disk MoreExamples.waiting_run = Returned (outs, false) /\
    dict_get outs "z" =
      Some {| op_progress := Unknown; op_complete := false; op_bytes := 64%Z |}.
Proof.
  eexists. split; [reflexivity|].
  refine (proj1 (unresolved_output_blocks_completion MoreExamples.waiting_run "z"
            Examples.unresolved_array _ false _ eq_refl eq_refl eq_refl)).
  simpl. auto.
Defined.


(** *** The fraction of an array *)

Lemma sum_flags_nonneg (m : list bool) : (0 <= sum_flags m)%Z.
Proof.
  induction m as [|b m IH]; simpl; [lia|].
  fold (sum_flags m). destruct b; lia.
Qed.

Lemma fraction_facts (s n : Z) :
  (0 <= s <= n)%Z -> (0 < n)%Z ->
  let q := (1 - inject_Z s / inject_Z n)%Q in
  (0 <= q)%Q /\ (q <= 1)%Q /\
  (Qeq_bool q 1 = true <-> s = 0%Z) /\ ((q == 0)%Q <-> s = n).
Proof.
  intros Hs Hn. destruct n as [|p|p]; try lia. intros q. subst q.
  rewrite Qeq_bool_iff.
  unfold Qle, Qeq, Qminus, Qplus, Qopp, Qdiv, Qmult, Qinv, inject_Z.
  cbn [Qnum Qden]. rewrite ?Pos.mul_1_l, ?Pos.mul_1_r.
  repeat split; intros; nia.
Qed.

(** For an array store whose shape is resolved and that is not empty, the
    progress is a fraction between 0 and 1; the output is complete exactly
    when every position is filled, and the progress is 0 exactly when no
    position is. *)
Theorem array_fraction_bounds (fa : FileArray) :
  shape_is_resolved (shape fa) = true -> well_formed fa -> (0 < size fa)%Z ->
  exists q,
    inspect (ArrayData fa) = Returned (Fraction q, sum_sizes (folder_files fa)) /\
    (0 <= q)%Q /\ (q <= 1)%Q /\
    (op_complete (entry (Fraction q, sum_sizes (folder_files fa))) = true
       <-> filled_count fa = size fa) /\
    ((q == 0)%Q <-> filled_count fa = 0%Z).
Proof.
  intros Hres [_ Hmask] Hpos. unfold inspect. rewrite Hres.
  destruct (Z.eqb_spec (size fa) 0) as [H0|_]; [lia|]. cbn [bind].
  eexists. split; [reflexivity|].
  pose proof (sum_flags_filled (mask_linear fa)) as Hsum.
  pose proof (sum_flags_nonneg (mask_linear fa)) as Hnn.
  fold (filled_count fa) in Hsum. rewrite Hmask in Hsum.
  assert (Hf : (0 <= filled_count fa)%Z) by (unfold filled_count; lia).
  destruct (fraction_facts (sum_flags (mask_linear fa)) (size fa))
    as (H1 & H2 & H3 & H4); [lia|lia|].
  cbv zeta in H1, H2, H3, H4.
  split; [exact H1|]. split; [exact H2|]. split.
  - unfold entry, op_complete, is_one, fst. rewrite H3. lia.
  - rewrite H4. lia.
Qed.

Lemma array_fraction_bounds_witness :
  exists q,
    inspect (ArrayData MoreExamples.full_array) = Returned (Fraction q, 40%Z) /\
    op_complete (entry (Fraction q, 40%Z)) = true.
Proof.
  destruct (array_fraction_bounds MoreExamples.full_array eq_refl
              (conj eq_refl eq_refl) eq_refl) as (q & Hq & _ & _ & Hc & _).
  exists q. split; [exact Hq|]. apply Hc. reflexivity.
Defined.

End DiskMore.

(** ** Listing the runs under a folder, continued *)

Module RunsMore.

Import Runs RunsFacts RunsTerms.

(** *** The first loop *)

Lemma last_default_irrelevant {A} (l : list A) (a d d' : A) :
  last (a :: l) d = last (a :: l) d'.
Proof.
  revert a. induction l as [|b l IH]; intros a; [reflexivity|].
  change (last (b :: l) d = last (b :: l) d'). apply IH.
Qed.

Lemma last_cons_default {A} (l : list A) (a d : A) :
  last (a :: l) d = last l a.
Proof.
  destruct l as [|b l]; [reflexivity|].
  change (last (b :: l) d = last (b :: l) a). apply last_default_irrelevant.
Qed.

Lemma scan_fold_shape fs l :
  forall st,
    sc_scanned (fold_left (scan_step fs) l st) = sc_scanned st + List.length l /\
    sc_runs (fold_left (scan_step fs) l st)
      = sc_runs st ++ map (new_entry fs) (filter (is_candidate fs) l) /\
    sc_run_info_path (fold_left (scan_step fs) l st)
      = last (map Some (filter (is_dir fs) l)) (sc_run_info_path st).
Proof.
  induction l as [|p l IH]; intros st; simpl.
  - rewrite app_nil_r. auto.
  - destruct (IH (scan_step fs st p)) as (Hn & Hr & Hp).
    rewrite Hn, Hr, Hp. clear IH Hn Hr Hp.
    unfold scan_step. cbn [filter]. unfold is_candidate at 2.
    destruct (is_dir fs p) eqn:Hdir;
      cbn [negb andb map sc_scanned sc_runs sc_run_info_path].
    + rewrite (last_cons_default _ (Some p)).
      destruct (info_file fs p) as [f|] eqn:Hinfo;
        cbn [map sc_scanned sc_runs sc_run_info_path].
      * rewrite <- app_assoc. unfold new_entry at 2. rewrite Hinfo.
        repeat split. lia.
      * repeat split. lia.
    + repeat split. lia.
Qed.

Lemma scan_runs fs : sc_runs (scan fs) = map (new_entry fs) (candidates fs).
Proof. exact (proj1 (proj2 (scan_fold_shape fs (iterdir fs) _))). Qed.

Lemma scan_run_info_path fs : sc_run_info_path (scan fs) = last_subdirectory fs.
Proof. exact (proj2 (proj2 (scan_fold_shape fs (iterdir fs) _))). Qed.

Lemma truncate_unlimited max_runs l : unlimited max_runs -> truncate max_runs l = l.
Proof.
  unfold unlimited, truncate. destruct max_runs as [n|]; [|reflexivity].
  intros Hn. destruct (Z.ltb_spec 0 n); [lia|reflexivity].
Qed.

Lemma firstn_in {A} (n : nat) (l : list A) (a : A) : In a (firstn n l) -> In a l.
Proof.
  revert n. induction l as [|b l IH]; intros [|n]; simpl; try tauto.
  intros [H|H]; [now left|right; eauto].
Qed.

Lemma truncate_incl max_runs l e : In e (truncate max_runs l) -> In e l.
Proof.
  unfold truncate. destruct max_runs as [n|]; [|auto].
  destruct (0 <? n)%Z; [|auto]. apply firstn_in.
Qed.

Lemma selected_in_scan fs max_runs e :
  In e (selected fs max_runs) ->
  exists p, In p (candidates fs) /\ e = new_entry fs p.
Proof.
  unfold selected. intros H. apply truncate_incl in H.
  apply (Permutation_in _ (Permutation_sym (sort_desc_perm _))) in H.
  rewrite scan_runs in H. apply in_map_iff in H.
  destruct H as (p & <- & Hp). eauto.
Qed.

(** *** The second loop *)

Lemma summarize_entries fs path entries :
  forall tc r,
    summarize fs path entries tc = Returned r ->
    Forall2 (summarized_from fs path) entries (fst r) /\
    snd r = tc + List.length (filter (loads fs) entries).
Proof.
  induction entries as [|e entries IH]; intros tc r Hr; simpl in Hr.
  - injection Hr as <-. simpl. split; [constructor|lia].
  - cbn [filter].
    destruct (load fs (run_folder e)) as [info|] eqn:Hload.
    + destruct (read_json fs path) as [j|] eqn:Hj; cbn [bind] in Hr; [|discriminate].
      destruct (Disk._progress_info_from_disk info) as [pr|] eqn:Hpr;
        cbn [bind] in Hr; [|discriminate].
      destruct (get_version j) as [v|] eqn:Hv; cbn [bind] in Hr; [|discriminate].
      destruct (summarize fs path entries (S tc)) as [r'|] eqn:Hrest;
        cbn [bind] in Hr; [|discriminate].
      injection Hr as <-. destruct (IH _ _ Hrest) as (Hall & Hc). simpl. split.
      * constructor; [|exact Hall]. split; [reflexivity|].
        rewrite Hload. exists j, pr, v. auto.
      * unfold loads at 1. rewrite Hload. simpl. lia.
    + destruct (summarize fs path entries tc) as [r'|] eqn:Hrest;
        cbn [bind] in Hr; [|discriminate].
      injection Hr as <-. destruct (IH _ _ Hrest) as (Hall & Hc). simpl. split.
      * constructor; [|exact Hall]. split; [reflexivity|]. now rewrite Hload.
      * unfold loads at 1. rewrite Hload. exact Hc.
Qed.

Lemma Forall2_in_right {A B} (R : A -> B -> Prop) l l' y :
  Forall2 R l l' -> In y l' -> exists x, In x l /\ R x y.
Proof.
  induction 1 as [|x y' l l' Hxy Hall IH]; intros Hin; [contradiction|].
  destruct Hin as [<-|Hin].
  - exists x. split; [now left|assumption].
  - destruct (IH Hin) as (x' & Hx' & HR). exists x'. split; [now right|assumption].
Qed.

Lemma summarize_keys fs path entries l :
  Forall2 (summarized_from fs path) entries l ->
  map entry_keys l = map entry_keys entries.
Proof.
  induction 1 as [|e e' entries l [Hk _] Hall IH]; simpl; [reflexivity|].
  now rewrite Hk, IH.
Qed.

(** Every returned entry comes from a selected entry of the first loop. *)
Lemma returned_entry_origin fs folder max_runs r e' :
  _list_historical_runs fs folder max_runs = Returned r ->
  In e' (runs r) ->
  exists p,
    In p (candidates fs) /\
    summarized_from fs (last_subdirectory fs) (new_entry fs p) e'.
Proof.
  intros Hr Hin.
  destruct (list_historical_runs_inv _ _ _ _ Hr)
    as [(Hruns & _)|(_ & _ & _ & Hsum)].
  - rewrite Hruns in Hin. contradiction.
  - destruct (summarize_entries _ _ _ _ _ Hsum) as (Hall & _). simpl in Hall.
    destruct (Forall2_in_right _ _ _ _ Hall Hin) as (e & He & HR).
    destruct (selected_in_scan _ _ _ He) as (p & Hp & ->).
    exists p. split; [assumption|]. now rewrite <- scan_run_info_path.
Qed.


(** *** Errors of the listing *)

(** [_list_historical_runs] answers with an error exactly when the folder
    does not exist or is not a directory; it then returns at once, with no
    entries and zero counts, whatever [max_runs] is. *)
Theorem listing_error_iff_no_folder (fs : FileSystem) (folder : string)
    (max_runs : option Z) :
  (root_exists fs = false \/ root_is_dir fs = false ->
   exists msg, _list_historical_runs fs folder max_runs
               = Returned (failure folder msg)) /\
  (forall r, _list_historical_runs fs folder max_runs = Returned r ->
     (error r <> None <-> root_exists fs = false \/ root_is_dir fs = false) /\
     (error r <> None ->
      runs r = [] /\ total_count r = 0 /\ scanned_directories r = 0)).
Proof.
  split.
  - unfold _list_historical_runs. intros [H|H].
    + rewrite H. simpl. eexists. reflexivity.
    + rewrite H. destruct (root_exists fs); simpl; eexists; reflexivity.
  - unfold _list_historical_runs. intros r.
    destruct (root_exists fs); simpl.
    2:{ intros [= <-]. simpl. repeat split; auto; discriminate. }
    destruct (root_is_dir fs); simpl.
    2:{ intros [= <-]. simpl. repeat split; auto; discriminate. }
    destruct (summarize fs _ _ 0) as [p|]; cbn [bind]; [|discriminate].
    intros [= <-]. simpl. split.
    + split; [congruence|]. intros [H|H]; discriminate.
    + congruence.
Qed.

Lemma listing_error_iff_no_folder_witness :
  exists msg, _list_historical_runs MoreExamples.no_folder "runs" (Some 2%Z)
              = Returned (failure "runs" msg).
Proof.
  apply (proj1 (listing_error_iff_no_folder MoreExamples.no_folder "runs"
                  (Some 2%Z))).
  left. reflexivity.
Defined.

(** *** Limits that do not limit *)

Lemma selected_unlimited fs max_runs :
  unlimited max_runs \/
  (exists n, max_runs = Some n /\ List.length (candidates fs) <= Z.to_nat n) ->
  selected fs max_runs = selected fs None.
Proof.
  unfold selected. intros [H|(n & -> & Hn)].
  - now rewrite truncate_unlimited.
  - unfold truncate. destruct (0 <? n)%Z; [|reflexivity].
    apply firstn_all2. now rewrite sort_desc_length, scan_runs, length_map.
Qed.

(** A [max_runs] that is zero or negative, or at least the number of
    candidate runs, changes nothing: the call behaves as without
    [max_runs]. *)
Theorem limit_without_effect (fs : FileSystem) (folder : string)
    (max_runs : option Z) :
  unlimited max_runs \/
  (exists n, max_runs = Some n /\ List.length (candidates fs) <= Z.to_nat n) ->
  _list_historical_runs fs folder max_runs = _list_historical_runs fs folder None.
Proof.
  intros H. unfold _list_historical_runs. now rewrite (selected_unlimited _ _ H).
Qed.

Lemma limit_without_effect_witness :
  _list_historical_runs Examples.three_runs "runs" (Some 0%Z)
  = _list_historical_runs Examples.three_runs "runs" None.
Proof.
  apply (limit_without_effect Examples.three_runs "runs" (Some 0%Z)).
  left. simpl. lia.
Defined.

(** *** Which runs are returned *)

Lemma map_run_folder_keys l :
  map run_folder l = map snd (map entry_keys l).
Proof. rewrite map_map. reflexivity. Qed.

(** Every returned entry is for a directory of the folder that holds a
    metadata file, with the modification time of that file; without a
    limit, the returned entries are for exactly these directories, each
    once. *)
Theorem returned_runs_are_candidates (fs : FileSystem) (folder : string)
    (max_runs : option Z) (r : _Runs) :
  _list_historical_runs fs folder max_runs = Returned r ->
  (forall e, In e (runs r) ->
     In (run_folder e) (candidates fs) /\
     entry_keys e = entry_keys (new_entry fs (run_folder e))) /\
  (unlimited max_runs -> error r = None ->
   Permutation (map run_folder (runs r)) (candidates fs)).
Proof.
  intros Hr. split.
  - intros e Hin.
    destruct (returned_entry_origin _ _ _ _ _ Hr Hin) as (p & Hp & Hk & _).
    assert (Hf : run_folder e = p) by exact (f_equal snd Hk).
    rewrite Hf. split; [assumption|exact Hk].
  - intros Hun Herr.
    destruct (list_historical_runs_inv _ _ _ _ Hr)
      as [(_ & _ & _ & Hroot)|(_ & _ & _ & Hsum)].
    + exfalso. revert Hr Herr. unfold _list_historical_runs.
      destruct Hroot as [H|H]; rewrite H; simpl.
      * intros [= <-]. discriminate.
      * destruct (root_exists fs); simpl; intros [= <-]; discriminate.
    + destruct (summarize_entries _ _ _ _ _ Hsum) as (Hall & _). simpl in Hall.
      apply summarize_keys in Hall.
      rewrite map_run_folder_keys, Hall, <- map_run_folder_keys.
      unfold selected. rewrite (truncate_unlimited _ _ Hun).
      rewrite <- (sort_desc_perm (sc_runs (scan fs))), scan_runs, map_map.
      simpl. now rewrite map_id.
Qed.

Lemma returned_runs_are_candidates_witness :
  exists r,
    _list_historical_runs Examples.file_and_run "runs" None = Returned r /\
    Permutation (map run_folder (runs r)) ["runs/a"].
Proof.
  eexists. split; [reflexivity|].
  exact (proj2 (returned_runs_are_candidates Examples.file_and_run "runs" None
                  _ eq_refl) I eq_refl).
Defined.

(** *** The count and the summaries *)

Lemma summarized_count fs path entries l :
  Forall2 (summarized_from fs path) entries l ->
  Forall unsummarized entries ->
  List.length (summarized l) = List.length (filter (loads fs) entries).
Proof.
  induction 1 as [|e e' entries l [_ He] Hall IH]; intros Hun; [reflexivity|].
  inversion Hun as [|? ? Hnone Hun']. subst.
  unfold summarized in *. cbn [filter]. unfold loads at 1.
  destruct (load fs (run_folder e)) as [info|].
  - destruct He as (j & pr & v & _ & _ & _ & ->). simpl. now rewrite IH.
  - subst e'. rewrite Hnone. now apply IH.
Qed.

Lemma selected_unsummarized fs max_runs :
  Forall unsummarized (selected fs max_runs).
Proof.
  rewrite Forall_forall. intros e He.
  destruct (selected_in_scan _ _ _ He) as (p & _ & ->). reflexivity.
Qed.

(** [total_count] is the number of returned entries that carry a summary,
    and a returned entry carries a summary exactly when [RunInfo.load]
    succeeds on its folder: the entries of runs that do not load are
    returned as the first loop made them. *)
Theorem total_count_counts_summaries (fs : FileSystem) (folder : string)
    (max_runs : option Z) (r : _Runs) :
  _list_historical_runs fs folder max_runs = Returned r ->
  total_count r = List.length (summarized (runs r)) /\
  (forall e, In e (runs r) ->
     (summary e = None <-> load fs (run_folder e) = None) /\
     (summary e = None -> e = new_entry fs (run_folder e))).
Proof.
  intros Hr. split.
  - destruct (list_historical_runs_inv _ _ _ _ Hr)
      as [(Hruns & Hc & _)|(_ & _ & _ & Hsum)].
    + now rewrite Hruns, Hc.
    + destruct (summarize_entries _ _ _ _ _ Hsum) as (Hall & Hc). simpl in *.
      rewrite Hc. symmetry.
      exact (summarized_count _ _ _ _ Hall (selected_unsummarized fs max_runs)).
  - intros e Hin.
    destruct (returned_entry_origin _ _ _ _ _ Hr Hin) as (p & Hp & Hk & He).
    assert (Hf : run_folder e = p) by exact (f_equal snd Hk).
    rewrite Hf. cbn [new_entry run_folder] in He.
    destruct (load fs p) as [info|].
    + destruct He as (j & pr & v & _ & _ & _ & Hs). rewrite Hs.
      split; [split; discriminate|discriminate].
    + subst e. split; [split; reflexivity|reflexivity].
Qed.

Lemma total_count_counts_summaries_witness :
  exists r,
    _list_historical_runs Examples.good_only "runs" None = Returned r /\
    total_count r = List.length (summarized (runs r)).
Proof.
  eexists. split; [reflexivity|].
  exact (proj1 (total_count_counts_summaries Examples.good_only "runs" None
                  _ eq_refl)).
Defined.


Lemma returned_summary_origin fs folder max_runs r e s :
  _list_historical_runs fs folder max_runs = Returned r ->
  In e (runs r) -> summary e = Some s ->
  exists info j pr,
    load fs (run_folder e) = Some info /\
    read_json fs (last_subdirectory fs) = Returned j /\
    Disk._progress_info_from_disk info = Returned pr /\
    get_version j = Returned (pipefunc_version s) /\
    all_complete s = snd pr /\
    total_outputs s = List.length (fst pr) /\
    completed_outputs s = count_complete (fst pr).
Proof.
  intros Hr Hin Hs.
  destruct (returned_entry_origin _ _ _ _ _ Hr Hin) as (p & Hp & Hk & He).
  assert (Hf : run_folder e = p) by exact (f_equal snd Hk).
  rewrite Hf. cbn [new_entry run_folder] in He.
  destruct (load fs p) as [info|].
  - destruct He as (j & pr & v & Hj & Hpr & Hv & Hs').
    rewrite Hs in Hs'. injection Hs' as ->.
    exists info, j, pr. simpl. auto 10.
  - subst e. discriminate.
Qed.

Lemma filter_length_forallb {A} (p : A -> bool) (l : list A) :
  List.length (filter p l) <= List.length l /\
  (forallb p l = true <-> List.length (filter p l) = List.length l).
Proof.
  induction l as [|a l [IHle IHiff]]; simpl; [split; [lia|tauto]|].
  destruct (p a); simpl.
  - split; [lia|]. rewrite IHiff. lia.
  - split; [lia|]. split; [discriminate|lia].
Qed.

(** In every summarized entry, [completed_outputs] is at most
    [total_outputs], and [all_complete] is set exactly when the two are
    equal. *)
Theorem summary_counts_consistent (fs : FileSystem) (folder : string)
    (max_runs : option Z) (r : _Runs) (e : _RunEntry) (s : Summary) :
  _list_historical_runs fs folder max_runs = Returned r ->
  In e (runs r) -> summary e = Some s ->
  completed_outputs s <= total_outputs s /\
  (all_complete s = true <-> completed_outputs s = total_outputs s).
Proof.
  intros Hr Hin Hs.
  destruct (returned_summary_origin _ _ _ _ _ _ Hr Hin Hs)
    as (info & j & [outs ac] & _ & _ & Hpr & _ & Hac & Ht & Hc).
  simpl in Hac, Ht, Hc. rewrite Hac, Ht, Hc.
  rewrite (DiskMore.progress_info_flag _ _ _ Hpr). unfold count_complete.
  exact (filter_length_forallb DiskTerms.complete_item outs).
Qed.

Lemma summary_counts_consistent_witness :
  exists r e s,
    _list_historical_runs Examples.good_only "runs" None = Returned r /\
    runs r = [e] /\ summary e = Some s /\
    completed_outputs s <= total_outputs s.
Proof.
  eexists. eexists. eexists. split; [reflexivity|].
  split; [reflexivity|]. split; [reflexivity|].
  eapply proj1.
  eapply (summary_counts_consistent Examples.good_only "runs" None).
  - reflexivity.
  - left. reflexivity.
  - reflexivity.
Defined.

(** *** [_run_info] against the listing *)

(** For a run that the listing summarized, [_run_info] on its folder finds
    the same outputs: it never answers with an error, and when the
    metadata file of the folder parses, its report has the completion flag
    of the summary and as many outputs, complete or not, as the summary
    counts; when the file does not parse, the exception escapes. *)
Theorem run_info_agrees_with_listing (fs : FileSystem) (folder : string)
    (max_runs : option Z) (r : _Runs) (e : _RunEntry) (s : Summary)
    (load_error : string -> string) :
  _list_historical_runs fs folder max_runs = Returned r ->
  In e (runs r) -> summary e = Some s ->
  exists outs,
    List.length outs = total_outputs s /\
    count_complete outs = completed_outputs s /\
    (forall j, read_json fs (Some (run_folder e)) = Returned j ->
       _run_info fs load_error (run_folder e)
       = Returned (RunInfoReport j outs (all_complete s))) /\
    (forall ex, read_json fs (Some (run_folder e)) = Raised ex ->
       _run_info fs load_error (run_folder e) = Raised ex).
Proof.
  intros Hr Hin Hs.
  destruct (returned_summary_origin _ _ _ _ _ _ Hr Hin Hs)
    as (info & j & [outs ac] & Hload & _ & Hpr & _ & Hac & Ht & Hc).
  simpl in Hac, Ht, Hc. exists outs.
  unfold _run_info. rewrite Hload, Hpr. cbn [bind fst snd].
  repeat split; try congruence.
  - intros j' ->. cbn [bind]. now rewrite Hac.
  - intros ex ->. reflexivity.
Qed.

Lemma run_info_agrees_with_listing_witness :
  exists r e s,
    _list_historical_runs Examples.good_only "runs" None = Returned r /\
    runs r = [e] /\ summary e = Some s /\
    exists outs,
      List.length outs = total_outputs s /\
      _run_info Examples.good_only (fun _ => "unreadable") (run_folder e)
      = Returned (RunInfoReport (Object (Some "0.80.0")) outs (all_complete s)).
Proof.
  eexists. eexists. eexists. split; [reflexivity|]. split; [reflexivity|].
  split; [reflexivity|].
  match goal with
  | |- exists outs, _ /\ _run_info _ _ (run_folder ?e) = Returned (_ _ _ (all_complete ?s)) =>
      destruct (run_info_agrees_with_listing Examples.good_only "runs" None
                  _ e s (fun _ => "unreadable") eq_refl (or_introl eq_refl) eq_refl)
        as (outs & Hlen & _ & Hj & _)
  end.
  exists outs. split; [exact Hlen|]. apply Hj. reflexivity.
Defined.

(** *** Ties *)

Lemma string_ltb_neq s1 s2 : String.ltb s1 s2 = true -> String.eqb s1 s2 = false.
Proof.
  unfold String.ltb. intros H. apply String.eqb_neq. intros ->.
  now rewrite string_compare_refl in H.
Qed.

Lemma insert_desc_filter k x l :
  filter (has_time k) (insert_desc x l) = filter (has_time k) (x :: l).
Proof.
  induction l as [|y l IH]; [reflexivity|].
  cbn [insert_desc].
  destruct (String.ltb (last_modified x) (last_modified y)) eqn:Hlt; [|reflexivity].
  cbn [filter] in *. rewrite IH. unfold has_time.
  destruct (String.eqb_spec (last_modified x) k) as [Hx|Hx]; [|reflexivity].
  apply string_ltb_neq in Hlt. rewrite Hx in Hlt.
  rewrite String.eqb_sym in Hlt. now rewrite Hlt.
Qed.

Lemma sort_desc_stable k l :
  filter (has_time k) (sort_desc l) = filter (has_time k) l.
Proof.
  induction l as [|x l IH]; [reflexivity|].
  cbn [sort_desc fold_right]. fold (sort_desc l).
  rewrite insert_desc_filter. cbn [filter]. now rewrite IH.
Qed.

Lemma filter_time_keys k l :
  forall l', map entry_keys l = map entry_keys l' ->
  map run_folder (filter (has_time k) l) = map run_folder (filter (has_time k) l').
Proof.
  induction l as [|e l IH]; intros [|e' l'] H; try discriminate; [reflexivity|].
  injection H as Ht Hf Hl. cbn [filter]. unfold has_time.
  rewrite Ht. destruct (String.eqb (last_modified e') k); simpl.
  - rewrite Hf. f_equal. now apply IH.
  - now apply IH.
Qed.

(** Runs with the same modification time are returned in the order in
    which the folder lists them: the sort is stable. *)
Theorem ties_keep_listing_order (fs : FileSystem) (folder : string)
    (max_runs : option Z) (r : _Runs) (k : string) :
  unlimited max_runs -> error r = None ->
  _list_historical_runs fs folder max_runs = Returned r ->
  map run_folder (filter (has_time k) (runs r))
  = filter (fun p => has_time k (new_entry fs p)) (candidates fs).
Proof.
  intros Hun Herr Hr.
  destruct (list_historical_runs_inv _ _ _ _ Hr)
    as [(_ & _ & _ & Hroot)|(_ & _ & _ & Hsum)].
  - exfalso. revert Hr Herr. unfold _list_historical_runs.
    destruct Hroot as [H|H]; rewrite H; simpl.
    + intros [= <-]. discriminate.
    + destruct (root_exists fs); simpl; intros [= <-]; discriminate.
  - destruct (summarize_entries _ _ _ _ _ Hsum) as (Hall & _). simpl in Hall.
    rewrite (filter_time_keys k _ _ (summarize_keys _ _ _ _ Hall)).
    unfold selected. rewrite (truncate_unlimited _ _ Hun), sort_desc_stable.
    rewrite scan_runs. generalize (candidates fs). intros l.
    induction l as [|p l IH]; [reflexivity|]. cbn [map filter].
    destruct (has_time k (new_entry fs p)); simpl; now rewrite IH.
Qed.

Lemma ties_keep_listing_order_witness :
  exists r,
    _list_historical_runs MoreExamples.tied_runs "runs" None = Returned r /\
    map run_folder (runs r) = ["runs/b"; "runs/a"; "runs/old"] /\
    map run_folder (filter (has_time "2024-05-02T10:00:00") (runs r))
    = ["runs/b"; "runs/a"].
Proof.
  eexists. split; [reflexivity|]. split; [reflexivity|].
  apply (ties_keep_listing_order MoreExamples.tied_runs "runs" None).
  - exact I.
  - reflexivity.
  - reflexivity.
Defined.

End RunsMore.
